(** * DealSync build pipeline: response parsing, retry and queue advance

    A shallow embedding of the two versions of the pipeline script found in
    the repository:

    - [src/scripts/build-pipeline.js]  (module [BuildPipeline]): the parser
      splits the response on the three-character marker;
    - [src/unnamed/part_000]           (module [Part000]): the parser scans
      with the global multiline regular expression
      [/^===\s*(.+?)\s*===/gm], the generation call is wrapped in
      [callGeminiWithRetry], and [main] returns early on an empty edit list.

    JavaScript strings are sequences of UTF-16 code units; they are modelled
    as [list Z].  Effects of [main] (file system, child processes, the
    generation service, the console) are recorded in a trace of actions and
    their outcomes are read from an environment record.

    The first half of the file holds the embedding and the vocabulary of the
    properties; the second half holds the proofs: facts about strings and the
    regular expression, the two parsers, retry with backoff, the traces of
    [main] and the queue document. *)

From Stdlib Require Import String Ascii.
From Stdlib Require Import List ZArith Lia Bool Arith.
From Stdlib Require Import QArith Qpower Permutation.
From Stdlib Require Import Floats.SpecFloat.
Import ListNotations.

(** ** JavaScript strings *)

Module JS.

Definition jsstring := list Z.

(** Code units of an ASCII literal. *)
Fixpoint js (s : string) : jsstring :=
  match s with
  | EmptyString => []
  | String a s' => Z.of_nat (nat_of_ascii a) :: js s'
  end.

Arguments js s%_string.

Definition LF : Z := 10%Z.
Definition EQUALS : Z := 61%Z.
Definition PERIOD : Z := 46%Z.
Definition QUOTE : Z := 34%Z.

(** ECMAScript LineTerminator: LF, CR, LS, PS. *)
Definition is_line_terminator (c : Z) : bool :=
  ((c =? 10) || (c =? 13) || (c =? 8232) || (c =? 8233))%Z.

(** ECMAScript WhiteSpace (TAB, VT, FF, SP, NBSP, ZWNBSP and category Zs)
    together with LineTerminator.  This is the class matched by [\s] and the
    class stripped by [String.prototype.trim]. *)
Definition is_space (c : Z) : bool :=
  ((c =? 9) || (c =? 11) || (c =? 12) || (c =? 32) || (c =? 160)
   || (c =? 5760) || ((8192 <=? c) && (c <=? 8202))
   || (c =? 8239) || (c =? 8287) || (c =? 12288) || (c =? 65279))%Z
  || is_line_terminator c.

Fixpoint eqb (s t : jsstring) : bool :=
  match s, t with
  | [], [] => true
  | c :: s', d :: t' => (c =? d)%Z && eqb s' t'
  | _, _ => false
  end.

(** [s.startsWith(p)] *)
Fixpoint startsWith (p s : jsstring) : bool :=
  match p, s with
  | [], _ => true
  | c :: p', d :: s' => (c =? d)%Z && startsWith p' s'
  | _ :: _, [] => false
  end.

(** [s.includes(p)] *)
Fixpoint includes (p s : jsstring) : bool :=
  startsWith p s ||
  match s with
  | [] => false
  | _ :: s' => includes p s'
  end.

Fixpoint trimStart (s : jsstring) : jsstring :=
  match s with
  | c :: s' => if is_space c then trimStart s' else s
  | [] => []
  end.

Definition trimEnd (s : jsstring) : jsstring := rev (trimStart (rev s)).

(** [s.trim()] *)
Definition trim (s : jsstring) : jsstring := trimEnd (trimStart s).

(** [s.substring(a, b)]: both indices are clamped to the length and swapped
    when out of order. *)
Definition substring (s : jsstring) (a b : nat) : jsstring :=
  let a' := Nat.min a (length s) in
  let b' := Nat.min b (length s) in
  let lo := Nat.min a' b' in
  let hi := Nat.max a' b' in
  firstn (hi - lo) (skipn lo s).

(** [s.slice(0, n)] for a non-negative [n]. *)
Definition slice0 (n : nat) (s : jsstring) : jsstring := firstn n s.

(** [s.split(sep)] for a non-empty separator: leftmost, non-overlapping
    occurrences.  [skip] counts the code units of a separator occurrence still
    to be passed over, [cur] holds the current piece in reverse. *)
Fixpoint split_go (sep : jsstring) (skip : nat) (cur s : jsstring)
  : list jsstring :=
  match s with
  | [] => [rev cur]
  | c :: s' =>
      match skip with
      | S k => split_go sep k cur s'
      | O =>
          if startsWith sep s
          then rev cur :: split_go sep (length sep - 1) [] s'
          else split_go sep 0 (c :: cur) s'
      end
  end.

Definition split (sep s : jsstring) : list jsstring := split_go sep 0 [] s.

(** [parts.join(sep)] *)
Fixpoint join (sep : jsstring) (parts : list jsstring) : jsstring :=
  match parts with
  | [] => []
  | [p] => p
  | p :: ps => p ++ sep ++ join sep ps
  end.

(** Truthiness of a string: non-empty. *)
Definition truthy (s : jsstring) : bool :=
  match s with [] => false | _ :: _ => true end.

End JS.

Import JS.

(** ** Data model *)

Record FileEdit := mkEdit { filename : jsstring; content : jsstring }.

(** ** The regular expression [/^===\s*(.+?)\s*===/gm]

    The matcher follows the backtracking order of the ECMAScript pattern
    semantics: a greedy star tries the longest run first and gives code units
    back one at a time, the lazy [.+?] takes one code unit and grows only when
    the rest of the pattern fails.  [.] matches every code unit that is not a
    LineTerminator; with flag [m], [^] holds at index 0 and right after a
    LineTerminator. *)

Module Regex.

(** A successful match: [index] is where it starts, [capture] is group 1 and
    [stop] is the index after the last matched code unit (the value stored in
    [lastIndex]). *)
Record MatchResult := mkMatch
  { index : nat; capture : jsstring; stop : nat }.

(** The closing literal [===]: number of code units consumed. *)
Definition close (s : jsstring) : option nat :=
  if startsWith (js "===") s then Some 3%nat else None.

(** [\s*===], greedy: number of code units consumed. *)
Fixpoint spaces_close (s : jsstring) : option nat :=
  match s with
  | c :: s' =>
      if is_space c then
        match spaces_close s' with
        | Some n => Some (S n)
        | None => close s
        end
      else close s
  | [] => close s
  end.

(** [(.+?)\s*===], lazy: the captured code units and the number of code units
    consumed after the capture. *)
Fixpoint token_close (s : jsstring) : option (jsstring * nat) :=
  match s with
  | c :: s' =>
      if is_line_terminator c then None else
      match spaces_close s' with
      | Some n => Some ([c], n)
      | None =>
          match token_close s' with
          | Some (cap, n) => Some (c :: cap, n)
          | None => None
          end
      end
  | [] => None
  end.

(** [\s*(.+?)\s*===], greedy on the leading run: code units consumed before
    the capture, the capture, code units consumed after it. *)
Fixpoint spaces_token_close (s : jsstring) : option (nat * jsstring * nat) :=
  match s with
  | c :: s' =>
      if is_space c then
        match spaces_token_close s' with
        | Some (k, cap, n) => Some (S k, cap, n)
        | None =>
            match token_close s with
            | Some (cap, n) => Some (O, cap, n)
            | None => None
            end
        end
      else
        match token_close s with
        | Some (cap, n) => Some (O, cap, n)
        | None => None
        end
  | [] => None
  end.

(** [^] under flag [m] at index [i]. *)
Definition at_line_start (text : jsstring) (i : nat) : bool :=
  match i with
  | O => true
  | S p =>
      match nth_error text p with
      | Some c => is_line_terminator c
      | None => false
      end
  end.

(** The whole pattern tried at index [i]. *)
Definition match_at (text : jsstring) (i : nat) : option MatchResult :=
  if at_line_start text i && startsWith (js "===") (skipn i text) then
    match spaces_token_close (skipn (i + 3) text) with
    | Some (k, cap, n) => Some (mkMatch i cap (i + 3 + k + length cap + n))
    | None => None
    end
  else None.

(** The search loop of RegExpBuiltinExec: try index [i], then [i+1], ... for
    [more] further indices. *)
Fixpoint search (text : jsstring) (i more : nat) : option MatchResult :=
  match match_at text i with
  | Some m => Some m
  | None =>
      match more with
      | O => None
      | S more' => search text (S i) more'
      end
  end.

(** [regex.exec(text)] with [regex.lastIndex = lastIndex]: the match, if any,
    and the new value of [lastIndex] (the end of the match, or 0 after a
    failure, as flag [g] prescribes). *)
Definition exec (text : jsstring) (lastIndex : nat)
  : option MatchResult * nat :=
  if (length text <? lastIndex)%nat then (None, O) else
  match search text lastIndex (length text - lastIndex) with
  | Some m => (Some m, stop m)
  | None => (None, O)
  end.

End Regex.

(** ** The backoff delay as a binary64 number

    [delayMs] starts at 60000 and is multiplied by 1.5 with the rounding of
    IEEE 754 binary64 (precision 53, maximal exponent 1024). *)

Definition binary64_mul : spec_float -> spec_float -> spec_float :=
  SFmul 53 1024.

(** 60000 = 1875 * 2^5 and 1.5 = 3 * 2^(-1), with 53-bit mantissas. *)
Definition binary64_60000 : spec_float :=
  S754_finite false 8246337208320000 (-37).
Definition binary64_1_5 : spec_float :=
  S754_finite false 6755399441055744 (-52).

(** Value of [delayMs] after [k] multiplications. *)
Fixpoint delay_binary64 (k : nat) : spec_float :=
  match k with
  | O => binary64_60000
  | S k' => binary64_mul (delay_binary64 k') binary64_1_5
  end.

Definition binary64_value (f : spec_float) : option Q :=
  match f with
  | S754_zero _ => Some 0
  | S754_finite s m e =>
      Some ((if s then -1 else 1) * inject_Z (Zpos m) * 2 ^ e)
  | _ => None
  end.

(** The binary64 delay after [k] multiplications is exactly
    [60000 * 1.5 ^ k]. *)
Definition delay_is_exact (k : nat) : bool :=
  match binary64_value (delay_binary64 k) with
  | Some q => Qeq_bool q (60000 * (3 # 2) ^ Z.of_nat k)
  | None => false
  end.

(** ** Effects

    A run is described by the sequence of actions it performs on the outside
    world and by the way it completes.  What the outside world answers is
    read from an environment. *)

Module Effects.

Record Task := mkTask
  { id : jsstring; title : jsstring; desc : jsstring; phase : jsstring }.

Record Backlog := mkBacklog
  { pending : list Task;
    completed : list Task;
    phases : list (jsstring * jsstring) }.

(** [backlog.pending.shift()] followed by [backlog.completed.push(...)].
    [main] only reaches it with a non-empty [pending]. *)
Definition advance (b : Backlog) : Backlog :=
  match pending b with
  | t :: rest => mkBacklog rest (completed b ++ [t]) (phases b)
  | [] => b
  end.

(** [backlog.phases[task.phase]] *)
Fixpoint lookup_phase (k : jsstring) (ps : list (jsstring * jsstring))
  : option jsstring :=
  match ps with
  | [] => None
  | (k', v) :: ps' => if eqb k k' then Some v else lookup_phase k ps'
  end.

(** The values interpolated into the prompt template. *)
Record Prompt := mkPrompt
  { prompt_task : Task;
    prompt_phase : option jsstring;
    prompt_files : list jsstring }.

(** Console lines, by the statement that prints them. *)
Inductive logline :=
| LAllDone
| LBuilding (t : Task)
| LRateLimited (delayMs : spec_float) (attempt retries : nat)
| LPreview (s : jsstring)
| LNoBlocks
| LWrote (f : jsstring)
| LValidating
| LCheckWarning (msg : jsstring)
| LBuildWarning (msg : jsstring)
| LValidated
| LComplete (t : Task)
| LNoChanges.

Inductive action :=
| ReadFile (path : jsstring)
| ReadDir (path : jsstring)
| ConsoleLog (l : logline)
| ConsoleError (msg : jsstring)
| GenerateContent (p : Prompt)
| SetTimeout (delayMs : spec_float)
| Mkdir (path : jsstring)
| WriteFile (path data : jsstring)
| TornWrite (path data : jsstring) (written : nat)
| ExecSync (cmd : jsstring).

(** How a computation completes: normally, by throwing an error (carried by
    its message), by [process.exit], or not at all. *)
Inductive completion (A : Type) :=
| Normal (a : A)
| Thrown (message : jsstring)
| Exit (code : Z)
| Diverges.

Arguments Normal {A} a.
Arguments Thrown {A} message.
Arguments Exit {A} code.
Arguments Diverges {A}.

Definition M (A : Type) : Type := list action * completion A.

Definition ret {A} (a : A) : M A := ([], Normal a).

Definition bind {A B} (m : M A) (k : A -> M B) : M B :=
  match m with
  | (t, Normal a) => let (t', c) := k a in (t ++ t', c)
  | (t, Thrown e) => (t, Thrown e)
  | (t, Exit n) => (t, Exit n)
  | (t, Diverges) => (t, Diverges)
  end.

Definition throw {A} (e : jsstring) : M A := ([], Thrown e).
Definition exit {A} (n : Z) : M A := ([], Exit n).
Definition hang {A} : M A := ([], Diverges).
Definition perform (a : action) : M unit := ([a], Normal tt).
Definition log (l : logline) : M unit := perform (ConsoleLog l).

(** [try { m } catch (e) { h e }] *)
Definition try_catch {A} (m : M A) (h : jsstring -> M A) : M A :=
  match m with
  | (t, Thrown e) => let (t', c) := h e in (t ++ t', c)
  | other => other
  end.

Inductive GenOutcome :=
| GenOk (text : jsstring)
| GenErr (message : jsstring).

(** Answers of the outside world.  [gen n] is the outcome of the [n]-th call
    of [model.generateContent] in the run, counted from 0.  An [execSync] or
    [fs.mkdirSync] call for which an error message is given throws it.
    [write_err path] tells how [fs.writeFileSync] fails on [path]: with the
    message alone when the file cannot be opened, which leaves it as it was;
    with the message and a number [k] when the file has been opened, and so
    emptied, and the call fails after [k] code units of the data have been
    written. *)
Record Env := mkEnv
  { backlog_file : option jsstring;
    listing : list jsstring;
    gen : nat -> GenOutcome;
    exec_err : jsstring -> option jsstring;
    mkdir_err : jsstring -> option jsstring;
    write_err : jsstring -> option (jsstring * option nat);
    today : jsstring }.

(** Built-ins of the platform the script uses and the sources do not define.
    [JSON_parse] yields [None] where [JSON.parse] throws, that is on a text
    that is not valid JSON.  The embedding is typed: the value of a valid
    text is read as a [Backlog], an object whose [pending] and [completed]
    are arrays of tasks with string fields and whose [phases] is an object of
    strings; valid JSON of another shape, on which the property accesses of
    [main] behave otherwise, is not covered.
    [is_backlog_path p] tells whether the path [p] designates the file
    [backlog.json] of the working directory. *)
Record Platform := mkPlatform
  { JSON_parse : jsstring -> option Backlog;
    JSON_stringify : Backlog -> jsstring;
    path_dirname : jsstring -> jsstring;
    is_backlog_path : jsstring -> bool }.

Definition BACKLOG_JSON : jsstring := js "backlog.json".

(** The queue document is the only file the script reads. *)
Definition readFileSync (E : Env) (path : jsstring) : M jsstring :=
  match backlog_file E with
  | Some data => ([ReadFile path], Normal data)
  | None => throw (js "ENOENT")
  end.

Definition readdirSync (E : Env) (path : jsstring) : M (list jsstring) :=
  ([ReadDir path], Normal (listing E)).

Definition mkdirSync (E : Env) (path : jsstring) : M unit :=
  match mkdir_err E path with
  | Some e => throw e
  | None => perform (Mkdir path)
  end.

(** [TornWrite path data k] records a call that fails after it has emptied
    the file and written [k] code units of [data]; a call that fails before
    it has opened the file leaves no action. *)
Definition writeFileSync (E : Env) (path data : jsstring) : M unit :=
  match write_err E path with
  | Some (e, None) => throw e
  | Some (e, Some k) => ([TornWrite path data k], Thrown e)
  | None => perform (WriteFile path data)
  end.

Definition execSync (E : Env) (cmd : jsstring) : M unit :=
  match exec_err E cmd with
  | Some e => ([ExecSync cmd], Thrown e)
  | None => perform (ExecSync cmd)
  end.

(** [await model.generateContent(prompt)] as call number [n] of the run. *)
Definition generateContent (E : Env) (n : nat) (p : Prompt) : M jsstring :=
  match gen E n with
  | GenOk text => ([GenerateContent p], Normal text)
  | GenErr e => ([GenerateContent p], Thrown e)
  end.

End Effects.

Import Effects.

Declare Scope js_scope.
Delimit Scope js_scope with js.
Notation "x <- m ;; k" := (bind m (fun x => k))
  (at level 61, m at next level, right associativity) : js_scope.
Notation "m ;; k" := (bind m (fun _ => k))
  (at level 61, right associativity) : js_scope.
Open Scope js_scope.

(** ** The part of [main] common to both files

    [src/unnamed/part_000] lines 94-140 and [src/scripts/build-pipeline.js]
    lines 48-92 are the same statements. *)

Module Common.

Definition quoted (s : jsstring) : jsstring := [QUOTE] ++ s ++ [QUOTE].

Definition CMD_CHECK : jsstring := js "python manage.py check || true".
Definition CMD_BUILD : jsstring := js "cd frontend && npm run build || true".
Definition CMD_USER_NAME : jsstring :=
  js "git config user.name " ++ quoted (js "AI Development Agent").
Definition CMD_USER_EMAIL : jsstring :=
  js "git config user.email " ++ quoted (js "bot@dealsync.com").
Definition CMD_ADD : jsstring := js "git add .".
Definition CMD_PUSH : jsstring := js "git push".

Definition cmd_commit (task : Task) : jsstring :=
  let summary := slice0 50 (title task) in
  js "git commit -m " ++
  quoted (js "feat(dealsync): " ++ summary ++ js " (#" ++ id task ++ js ")").

Definition note_path (date : jsstring) (task : Task) : jsstring :=
  js "docs/progress/" ++ date ++ js "-" ++ id task ++ js ".md".

Definition note_text (task : Task) (response : jsstring) : jsstring :=
  js "# Task " ++ id task ++ [LF] ++ title task ++ [LF; LF] ++
  slice0 1000 response.

(** [const prompt = `...`] with its preceding [readdirSync]. *)
Definition build_prompt (E : Env) (backlog : Backlog) (task : Task)
  : M Prompt :=
  all <- readdirSync E (js ".") ;;
  let files := filter (fun f => negb (startsWith (js ".") f)) all in
  ret (mkPrompt task (lookup_phase (phase task) (phases backlog)) files).

(** Body of [for (const change of changes)]. *)
Definition apply_change (P : Platform) (E : Env) (change : FileEdit)
  : M unit :=
  let dir := path_dirname P (filename change) in
  (if truthy dir && negb (eqb dir (js "."))
   then mkdirSync E dir else ret tt) ;;
  writeFileSync E (filename change) (content change) ;;
  log (LWrote (filename change)).

(** The [for] loop; the result is the final value of [hasChanges]. *)
Fixpoint apply_changes (P : Platform) (E : Env) (changes : list FileEdit)
  (hasChanges : bool) : M bool :=
  match changes with
  | [] => ret hasChanges
  | change :: rest =>
      apply_change P E change ;;
      apply_changes P E rest true
  end.

Definition write_note (E : Env) (task : Task) (response : jsstring)
  : M unit :=
  mkdirSync E (js "docs/progress") ;;
  writeFileSync E (note_path (today E) task) (note_text task response).

Definition validate (E : Env) : M unit :=
  log LValidating ;;
  try_catch (execSync E CMD_CHECK) (fun e => log (LCheckWarning e)) ;;
  try_catch (execSync E CMD_BUILD) (fun e => log (LBuildWarning e)) ;;
  log LValidated.

Definition publish (E : Env) (task : Task) : M unit :=
  execSync E CMD_USER_NAME ;;
  execSync E CMD_USER_EMAIL ;;
  execSync E CMD_ADD ;;
  execSync E (cmd_commit task) ;;
  execSync E CMD_PUSH.

Definition persist_advance (P : Platform) (E : Env) (backlog : Backlog)
  (task : Task) : M unit :=
  writeFileSync E BACKLOG_JSON (JSON_stringify P (advance backlog)) ;;
  log (LComplete task).

(** From [let hasChanges = false] to the end of the [try] block. *)
Definition apply_and_publish (P : Platform) (E : Env) (backlog : Backlog)
  (task : Task) (response : jsstring) (changes : list FileEdit) : M unit :=
  hasChanges <- apply_changes P E changes false ;;
  write_note E task response ;;
  if hasChanges : bool then
    validate E ;;
    publish E task ;;
    persist_advance P E backlog task
  else
    log LNoChanges.

(** [JSON.parse(fs.readFileSync('backlog.json', 'utf8'))]: it throws when the
    file is missing and when its text is not valid JSON. *)
Definition load_backlog (P : Platform) (E : Env) : M Backlog :=
  raw <- readFileSync E BACKLOG_JSON ;;
  match JSON_parse P raw with
  | Some b => ret b
  | None => throw (js "SyntaxError")
  end.

(** [catch (error) { console.error(...); process.exit(1); }] *)
Definition on_error (e : jsstring) : M unit :=
  perform (ConsoleError e) ;; exit 1%Z.

End Common.

Import Common.

(** ** [src/scripts/build-pipeline.js] *)

Module BuildPipeline.

(** One iteration of [for (const part of parts)]: the edit pushed for this
    part, if any. *)
Definition parse_part (part : jsstring) : option FileEdit :=
  let trimmed := trim part in
  if negb (truthy trimmed) then None else
  let lines := split [LF] trimmed in
  if (length lines <? 2)%nat then None else
  let firstLine := trim (hd [] lines) in
  if negb (includes [PERIOD] firstLine) then None else
  let filename := firstLine in
  let content := trim (join [LF] (tl lines)) in
  if truthy filename && truthy content
  then Some (mkEdit filename content)
  else None.

Fixpoint collect (parts : list jsstring) : list FileEdit :=
  match parts with
  | [] => []
  | part :: rest =>
      match parse_part part with
      | Some e => e :: collect rest
      | None => collect rest
      end
  end.

Definition parseAIResponse (text : jsstring) : list FileEdit :=
  collect (split (js "===") text).

(** [main()], up to the [process.exit] or the end of the function. *)
Definition main (P : Platform) (E : Env) : M unit :=
  try_catch
    (backlog <- load_backlog P E ;;
     match pending backlog with
     | [] => log LAllDone ;; exit 0%Z
     | task :: _ =>
         log (LBuilding task) ;;
         prompt <- build_prompt E backlog task ;;
         response <- generateContent E 0 prompt ;;
         log (LPreview (slice0 300 response)) ;;
         let changes := parseAIResponse response in
         apply_and_publish P E backlog task response changes
     end)
    on_error.

End BuildPipeline.

(** ** [src/unnamed/part_000] *)

Module Part000.

Import Regex.

(** The [for] loop of [callGeminiWithRetry], entered with loop variable [i]
    and [n] iterations left before [i < retries] fails.  Leaving the loop
    makes the function return [undefined], here [None].  [delayMs] is a
    binary64 number, and [delayMs *= 1.5] its rounded product. *)
Fixpoint retry_loop (E : Env) (prompt : Prompt) (retries n i : nat)
  (delayMs : spec_float) : M (option jsstring) :=
  match n with
  | O => ret None
  | S n' =>
      try_catch
        (r <- generateContent E i prompt ;; ret (Some r))
        (fun e =>
           if negb (includes (js "429") e) || (i =? retries - 1)%nat
           then throw e
           else
             log (LRateLimited delayMs (i + 1) retries) ;;
             perform (SetTimeout delayMs) ;;
             retry_loop E prompt retries n' (S i)
               (binary64_mul delayMs binary64_1_5))
  end.

Definition callGeminiWithRetry (E : Env) (prompt : Prompt) (retries : nat)
  : M (option jsstring) :=
  retry_loop E prompt retries retries 0 binary64_60000.

Definition DEFAULT_RETRIES : nat := 3.

(** State of the [while] loop between two evaluations of its condition, or
    the value returned once the condition is false. *)
Inductive loop_state :=
| Continue (lastIndex : nat) (changes : list FileEdit)
| Return (changes : list FileEdit).

(** [changes.push(e)] when the filename has a period and the content is not
    empty. *)
Definition push_if_file (changes : list FileEdit) (fname body : jsstring)
  : list FileEdit :=
  if includes [PERIOD] fname && (0 <? length body)%nat
  then changes ++ [mkEdit fname body]
  else changes.

(** The loop condition followed by one execution of the loop body. *)
Definition loop_iter (text : jsstring) (lastIndex : nat)
  (changes : list FileEdit) : loop_state :=
  match exec text lastIndex with
  | (None, _) => Return changes
  | (Some m, lastIndex1) =>
      let fname := trim (capture m) in
      let start := lastIndex1 in
      match exec text lastIndex1 with
      | (Some nextMatch, _) =>
          let body := trim (substring text start (index nextMatch)) in
          Continue (index nextMatch) (push_if_file changes fname body)
      | (None, lastIndex2) =>
          let body := trim (substring text start (length text)) in
          Continue lastIndex2 (push_if_file changes fname body)
      end
  end.

(** The loop state after at most [n] iterations. *)
Fixpoint loop (n : nat) (text : jsstring) (lastIndex : nat)
  (changes : list FileEdit) : loop_state :=
  match n with
  | O => Continue lastIndex changes
  | S n' =>
      match loop_iter text lastIndex changes with
      | Continue lastIndex' changes' => loop n' text lastIndex' changes'
      | Return r => Return r
      end
  end.

Definition changes_of (st : loop_state) : list FileEdit :=
  match st with
  | Continue _ c => c
  | Return c => c
  end.

(** [parseAIResponse(text)] run for at most [fuel] loop iterations; [None]
    when the loop has not exited by then. *)
Definition parseAIResponse (fuel : nat) (text : jsstring)
  : option (list FileEdit) :=
  match loop fuel text 0 [] with
  | Return r => Some r
  | Continue _ _ => None
  end.

(** [main()], up to the [process.exit] or the end of the function, with the
    function called at [const changes = ...] as a parameter; [None] stands
    for a call that does not return. *)
Definition main_with (parse : jsstring -> option (list FileEdit))
  (P : Platform) (E : Env) : M unit :=
  try_catch
    (backlog <- load_backlog P E ;;
     match pending backlog with
     | [] => log LAllDone ;; exit 0%Z
     | task :: _ =>
         log (LBuilding task) ;;
         prompt <- build_prompt E backlog task ;;
         result <- callGeminiWithRetry E prompt DEFAULT_RETRIES ;;
         match result with
         | None => throw (js "TypeError")
         | Some response =>
             log (LPreview (slice0 300 response)) ;;
             match parse response with
             | None => hang
             | Some [] => log LNoBlocks
             | Some changes =>
                 apply_and_publish P E backlog task response changes
             end
         end
     end)
    on_error.

(** [main()] as it is, the parser being given [fuel] loop iterations. *)
Definition main (fuel : nat) (P : Platform) (E : Env) : M unit :=
  main_with (parseAIResponse fuel) P E.

End Part000.

(** ** Sample inputs *)

Definition sample_response : jsstring :=
  js "=== a.txt ===" ++ [LF] ++ js "hello" ++ [LF] ++
  js "=== b/c.py ===" ++ [LF] ++ js "print(1)" ++ [LF] ++ js "=== END ===".

Definition three_blocks : jsstring :=
  js "=== a.b ===" ++ [LF] ++ js "x" ++ [LF] ++
  js "=== c.d ===" ++ [LF] ++ js "y" ++ [LF] ++
  js "=== e.f ===" ++ [LF] ++ js "z".

Definition two_lines : jsstring := js "a.b" ++ [LF] ++ js "c".

(** ** What an accepted edit looks like *)

Definition accepted (e : FileEdit) : Prop :=
  includes [PERIOD] (filename e) = true /\
  content e <> [] /\
  trim (content e) = content e /\
  filename e <> js "END".

(** ** Vocabulary of the properties *)

Definition edit_a_txt : FileEdit := mkEdit (js "a.txt") (js "hello").
Definition edit_c_py : FileEdit := mkEdit (js "b/c.py") (js "print(1)").

(** The string is empty or starts with a code unit that [trim] keeps. *)
Definition no_leading_space (s : jsstring) : Prop :=
  match s with
  | c :: _ => is_space c = false
  | [] => True
  end.

(** [exec] succeeds on [text] when started at [lastIndex]. *)
Definition finds_from (text : jsstring) (lastIndex : nat) : Prop :=
  exists m, fst (Regex.exec text lastIndex) = Some m.

(** The calls of [model.generateContent] and the waits found in a trace. *)
Definition attempts (t : list action) : nat :=
  length (filter (fun a => match a with GenerateContent _ => true
                                      | _ => false end) t).

Fixpoint delays (t : list action) : list spec_float :=
  match t with
  | [] => []
  | SetTimeout d :: t' => d :: delays t'
  | _ :: t' => delays t'
  end.

(** The attempt failed with an error whose message holds [429]. *)
Definition rate_limited (o : GenOutcome) : bool :=
  match o with
  | GenErr e => includes (js "429") e
  | GenOk _ => false
  end.

(** ** What a run leaves behind *)

Section Observers.

Variable P : Platform.

Definition writes_queue (a : action) : bool :=
  match a with
  | WriteFile p _ | TornWrite p _ _ => is_backlog_path P p
  | _ => false
  end.

(** Content of the queue document after the actions [t], starting from
    content [q] ([None]: no such file). *)
Fixpoint queue_after (q : option jsstring) (t : list action)
  : option jsstring :=
  match t with
  | [] => q
  | WriteFile p d :: t' =>
      if is_backlog_path P p then queue_after (Some d) t'
      else queue_after q t'
  | TornWrite p d k :: t' =>
      if is_backlog_path P p then queue_after (Some (firstn k d)) t'
      else queue_after q t'
  | _ :: t' => queue_after q t'
  end.

(** Contents the file holds while [fs.writeFileSync(path, data)] runs: the
    file is opened with flag [w], which empties it, and [data] is then written
    from its first code unit on. *)
Definition during_write (data : jsstring) : list (option jsstring) :=
  map (fun k => Some (firstn k data)) (seq 0 (length data)).

(** Every content the queue document has at some moment of the run, in
    order; the last one is [queue_after].  A call that fails after [k] code
    units leaves the file as a complete write of these [k] code units
    does. *)
Fixpoint queue_history (q : option jsstring) (t : list action)
  : list (option jsstring) :=
  match t with
  | [] => [q]
  | WriteFile p d :: t' =>
      if is_backlog_path P p
      then q :: during_write d ++ queue_history (Some d) t'
      else queue_history q t'
  | TornWrite p d k :: t' =>
      if is_backlog_path P p
      then q :: during_write (firstn k d)
             ++ queue_history (Some (firstn k d)) t'
      else queue_history q t'
  | _ :: t' => queue_history q t'
  end.

End Observers.

Fixpoint file_writes (t : list action) : list (jsstring * jsstring) :=
  match t with
  | [] => []
  | WriteFile p d :: t' => (p, d) :: file_writes t'
  | _ :: t' => file_writes t'
  end.

Fixpoint commands (t : list action) : list jsstring :=
  match t with
  | [] => []
  | ExecSync c :: t' => c :: commands t'
  | _ :: t' => commands t'
  end.

Fixpoint directories (t : list action) : list jsstring :=
  match t with
  | [] => []
  | Mkdir p :: t' => p :: directories t'
  | _ :: t' => directories t'
  end.

(** Exit status of the process for a completed [main]. *)
Definition exit_status (c : completion unit) : option Z :=
  match c with
  | Normal _ => Some 0%Z
  | Exit n => Some n
  | Thrown _ => Some 1%Z
  | Diverges => None
  end.

(** All five commands of the publish step succeed. *)
Definition publish_ok (E : Env) (task : Task) : bool :=
  match exec_err E CMD_USER_NAME, exec_err E CMD_USER_EMAIL,
        exec_err E CMD_ADD, exec_err E (cmd_commit task),
        exec_err E CMD_PUSH with
  | None, None, None, None, None => true
  | _, _, _, _, _ => false
  end.

(** The edits [build-pipeline.js] applies in environment [E]. *)
Definition edits_of_run (E : Env) : list FileEdit :=
  match gen E 0 with
  | GenOk text => BuildPipeline.parseAIResponse text
  | GenErr _ => []
  end.

(** The queue document is as the run found it, or holds the backlog with the
    head of [pending] moved to the end of [completed]. *)
Definition unchanged_or_advanced (P : Platform) (raw : jsstring)
  (b : Backlog) (t : list action) : Prop :=
  queue_after P (Some raw) t = Some raw \/
  queue_after P (Some raw) t = Some (JSON_stringify P (advance b)).

(** At every moment of the run the queue document is the complete previous
    text or the complete new text. *)
Definition never_torn (P : Platform) (raw : jsstring) (b : Backlog)
  (t : list action) : Prop :=
  Forall (fun q => q = Some raw \/ q = Some (JSON_stringify P (advance b)))
         (queue_history P (Some raw) t).

(** Every action of the computation satisfies [ok]. *)
Definition all_actions (ok : action -> Prop) {A} (m : M A) : Prop :=
  Forall ok (fst m).

(** Neither a file write, complete or not, nor a directory creation, nor a
    command. *)
Definition harmless (a : action) : Prop :=
  match a with
  | WriteFile _ _ | TornWrite _ _ _ | Mkdir _ | ExecSync _ => False
  | _ => True
  end.

(** Not a write to the queue document. *)
Definition spares_queue (P : Platform) (a : action) : Prop :=
  writes_queue P a = false.

(** The publish step succeeds for the head of [pending]. *)
Definition head_published (E : Env) (b : Backlog) : bool :=
  match pending b with
  | task :: _ => publish_ok E task
  | [] => false
  end.

(** The command [cmd] is run in the trace. *)
Definition runs (cmd : jsstring) (t : list action) : bool :=
  existsb (fun a => match a with ExecSync c => eqb c cmd | _ => false end) t.

(** The publish step has been completed: [git push], its last command, has
    been run and has not failed. *)
Definition published (E : Env) (t : list action) : bool :=
  runs CMD_PUSH t &&
  match exec_err E CMD_PUSH with None => true | Some _ => false end.

(** Neither a write to the queue document nor [git push]. *)
Definition calm (P : Platform) (a : action) : Prop :=
  spares_queue P a /\
  match a with ExecSync c => eqb c CMD_PUSH = false | _ => True end.

(** What [fs.writeFileSync('backlog.json', ...)] of [persist_advance] does. *)
Definition final_write (P : Platform) (E : Env) (b : Backlog) : list action :=
  fst (writeFileSync E BACKLOG_JSON (JSON_stringify P (advance b))).

(** Shape of a computation with respect to the queue document: either it
    never writes it and does not complete the publish step, or it completes
    the publish step and then calls [fs.writeFileSync] on the queue document.
    [G] is known in the second case. *)
Definition gated (P : Platform) (E : Env) (b : Backlog) (G : Prop)
  (m : M unit) : Prop :=
  (all_actions (spares_queue P) m /\ published E (fst m) = false) \/
  (exists t0 t1, fst m = t0 ++ final_write P E b ++ t1 /\
                 Forall (spares_queue P) t0 /\
                 Forall (spares_queue P) t1 /\
                 published E t0 = true /\ G).

(** None of the edits is written through a path that designates the queue
    document. *)
Definition spare_queue (P : Platform) (edits : list FileEdit) : Prop :=
  Forall (fun e => is_backlog_path P (filename e) = false) edits.

(** Neither is the progress note of the head task. *)
Definition note_spares_queue (P : Platform) (E : Env) (b : Backlog) : Prop :=
  match pending b with
  | task :: _ => is_backlog_path P (note_path (today E) task) = false
  | [] => True
  end.

(** Whatever the parser returns spares the queue document. *)
Definition parser_spares_queue (P : Platform)
  (parse : jsstring -> option (list FileEdit)) : Prop :=
  forall text edits, parse text = Some edits -> spare_queue P edits.

(** ** A sample platform and sample environments *)

Module Sample.

(** [path.dirname] of Node on POSIX. *)
Fixpoint dirname_end (r : jsstring) (matchedSlash : bool) : option jsstring :=
  match r with
  | [] => None
  | c :: r' =>
      if (c =? 47)%Z
      then (if matchedSlash then dirname_end r' true else Some r')
      else dirname_end r' false
  end.

Definition dirname (path : jsstring) : jsstring :=
  match path with
  | [] => js "."
  | c0 :: rest =>
      match dirname_end (rev rest) true with
      | None => if (c0 =? 47)%Z then js "/" else js "."
      | Some r' =>
          if (c0 =? 47)%Z && (length r' =? 0)%nat then js "//"
          else c0 :: rev r'
      end
  end.

Definition field (k v : jsstring) : jsstring := quoted k ++ js ":" ++ v.

Definition render_task (t : Task) : jsstring :=
  js "{" ++
  join (js ",")
    [field (js "id") (quoted (id t)); field (js "title") (quoted (title t));
     field (js "desc") (quoted (desc t)); field (js "phase") (quoted (phase t))]
  ++ js "}".

Definition render_tasks (l : list Task) : jsstring :=
  js "[" ++ join (js ",") (map render_task l) ++ js "]".

Definition render_phases (l : list (jsstring * jsstring)) : jsstring :=
  js "{" ++ join (js ",") (map (fun kv => field (fst kv) (quoted (snd kv))) l)
  ++ js "}".

(** A compact rendering of the queue document, standing for
    [JSON.stringify(backlog, null, 2)] on texts that need no escaping. *)
Definition stringify (b : Backlog) : jsstring :=
  js "{" ++
  join (js ",")
    [field (js "pending") (render_tasks (pending b));
     field (js "completed") (render_tasks (completed b));
     field (js "phases") (render_phases (phases b))]
  ++ js "}".

Definition T0 : Task := mkTask (js "0") (js "Repo setup") (js "init") (js "p1").
Definition T1 : Task := mkTask (js "1") (js "Django app") (js "api") (js "p1").
Definition T2 : Task := mkTask (js "2") (js "Next.js app") (js "ui") (js "p2").

Definition backlog : Backlog :=
  mkBacklog [T1; T2] [T0] [(js "p1", js "Backend"); (js "p2", js "Frontend")].

Definition document : jsstring := stringify backlog.

(** Reads the sample document back; every other text is rejected. *)
Definition parse (s : jsstring) : option Backlog :=
  if eqb s document then Some backlog else None.

Definition platform : Platform :=
  mkPlatform parse stringify dirname
    (fun p => eqb p (js "backlog.json") || eqb p (js "./backlog.json")).

(** The service answers [text] at once; no command and no [fs] call fails
    except the commands listed in [failing]. *)
Definition answering (text : jsstring) (failing : list jsstring) : Env :=
  mkEnv (Some document) [js "backlog.json"; js ".git"]
    (fun _ => GenOk text)
    (fun c => if existsb (eqb c) failing then Some (js "Command failed")
              else None)
    (fun _ => None) (fun _ => None) (js "2024-01-01").

Definition overwriting_response : jsstring :=
  js "backlog.json" ++ [LF] ++ js "{}".

Definition one_file_response : jsstring := js "a.txt" ++ [LF] ++ js "hello".

(** Every call of the service is rate-limited. *)
Definition always_429 : Env :=
  mkEnv None [] (fun _ => GenErr (js "429 Too Many Requests"))
    (fun _ => None) (fun _ => None) (fun _ => None) (js "2024-01-01").

Definition no_prompt : Prompt := mkPrompt (mkTask [] [] [] []) None [].

(** The first call is rate-limited, the following ones fail otherwise. *)
Definition fails_second : Env :=
  mkEnv None []
    (fun n => match n with
              | O => GenErr (js "429 Too Many Requests")
              | _ => GenErr (js "API key not valid")
              end)
    (fun _ => None) (fun _ => None) (fun _ => None) (js "2024-01-01").

End Sample.


(** ** Vocabulary of the further properties *)



(** No code unit is a line feed. *)
Definition no_line_feed (s : jsstring) : Prop :=
  forallb (fun c => negb (c =? LF)%Z) s = true.

(** [l] is an initial segment of [l']. *)
Definition initial_segment {A} (l l' : list A) : Prop :=
  exists rest, l' = l ++ rest.


(** What iteration [i] of the loop of [callGeminiWithRetry] does when its
    attempt is rate-limited and is not the last one: the call, the console
    line, the wait. *)
Definition backoff_step (prompt : Prompt) (retries i : nat) : list action :=
  [GenerateContent prompt;
   ConsoleLog (LRateLimited (delay_binary64 i) (i + 1) retries);
   SetTimeout (delay_binary64 i)].

(** [n] such iterations from iteration [first] on, followed by one more
    call. *)
Definition retry_trace (prompt : Prompt) (retries first n : nat)
  : list action :=
  flat_map (backoff_step prompt retries) (seq first n)
  ++ [GenerateContent prompt].


(** The file [backlog.json] exists and does not hold valid JSON. *)
Definition invalid_queue : Env :=
  mkEnv (Some (js "{ pending: [")) [js "backlog.json"]
    (fun _ => GenOk (js "ok"))
    (fun _ => None) (fun _ => None) (fun _ => None) (js "2024-01-01").

(** A parser that returns the same one edit for every response. *)
Definition one_edit_parser (text : jsstring) : option (list FileEdit) :=
  Some [edit_a_txt].

(** The service answers [text] at once and no command fails; the write of the
    queue document fails after [k] code units. *)
Definition torn_advance (text : jsstring) (k : nat) : Env :=
  mkEnv (Some Sample.document) [js "backlog.json"; js ".git"]
    (fun _ => GenOk text) (fun _ => None) (fun _ => None)
    (fun p => if eqb p BACKLOG_JSON then Some (js "ENOSPC", Some k) else None)
    (js "2024-01-01").

(** The commands of the publish step, in the order of the source. *)
Definition publish_commands (task : Task) : list jsstring :=
  [CMD_USER_NAME; CMD_USER_EMAIL; CMD_ADD; cmd_commit task; CMD_PUSH].

(** No [fs.mkdirSync] and no [fs.writeFileSync] call fails. *)
Definition fs_ok (E : Env) : Prop :=
  forall path, mkdir_err E path = None /\ write_err E path = None.

(** The file writes an edit list asks for. *)
Definition writes_of (changes : list FileEdit) : list (jsstring * jsstring) :=
  map (fun e => (filename e, content e)) changes.

(** The first call of the service is rate-limited, the second one answers
    [text]. *)
Definition busy_once (text : jsstring) : Env :=
  mkEnv (Some Sample.document) [js "backlog.json"]
    (fun n => match n with
              | O => GenErr (js "[429 Too Many Requests]")
              | _ => GenOk text
              end)
    (fun _ => None) (fun _ => None) (fun _ => None) (js "2024-01-01").

(** Every call of the service is rate-limited; the queue document is the
    sample one. *)
Definition busy_always : Env :=
  mkEnv (Some Sample.document) [js "backlog.json"]
    (fun _ => GenErr (js "[429 Too Many Requests]"))
    (fun _ => None) (fun _ => None) (fun _ => None) (js "2024-01-01").

(** How a completion ends, without the value it carries. *)
Inductive ending :=
| EndsNormal
| EndsThrown
| EndsExit (code : Z)
| EndsDiverges.

Definition ending_of {A} (c : completion A) : ending :=
  match c with
  | Normal _ => EndsNormal
  | Thrown _ => EndsThrown
  | Exit n => EndsExit n
  | Diverges => EndsDiverges
  end.

(** The computation ends in one of the [allowed] ways. *)
Definition ends {A} (allowed : ending -> Prop) (m : M A) : Prop :=
  allowed (ending_of (snd m)).

(** Normally or by throwing. *)
Definition returns_or_throws (e : ending) : Prop :=
  e = EndsNormal \/ e = EndsThrown.

(** As the [try] block of [main] may end; [hangs] holds when it does not
    end. *)
Definition try_block_ending (hangs : Prop) (e : ending) : Prop :=
  e = EndsNormal \/ e = EndsThrown \/ e = EndsExit 0 \/
  (hangs /\ e = EndsDiverges).

(** A platform on which the queue document reads as [b]. *)
Definition reading (b : Backlog) : Platform :=
  mkPlatform (fun _ => Some b) Sample.stringify Sample.dirname
    (fun p => eqb p (js "backlog.json")).

(** Splits a conjunction into its conjuncts, and nothing else. *)
Ltac conjuncts := repeat match goal with |- _ /\ _ => split end.

(** * Facts about strings *)

Section Trim.

Lemma trimStart_no_leading_space s : no_leading_space (trimStart s).
Proof.
  induction s as [|c s IH]; simpl; [exact I|].
  destruct (is_space c) eqn:Hc; [exact IH|exact Hc].
Qed.

Lemma trimStart_fixed s : no_leading_space s -> trimStart s = s.
Proof.
  destruct s as [|c s]; simpl; [reflexivity|].
  intros ->. reflexivity.
Qed.

(** [trimStart] only removes a prefix. *)
Lemma trimStart_suffix s : exists w, s = w ++ trimStart s.
Proof.
  induction s as [|c s [w Hw]]; simpl.
  - exists []. reflexivity.
  - destruct (is_space c).
    + exists (c :: w). simpl. now rewrite <- Hw.
    + exists []. reflexivity.
Qed.

Lemma trimEnd_prefix s : exists w, s = trimEnd s ++ w.
Proof.
  unfold trimEnd. destruct (trimStart_suffix (rev s)) as [w Hw].
  exists (rev w).
  rewrite <- rev_app_distr, <- Hw. now rewrite rev_involutive.
Qed.

Lemma trimEnd_keeps_head s :
  no_leading_space s -> no_leading_space (trimEnd s).
Proof.
  intros Hs. destruct (trimEnd_prefix s) as [w Hw].
  destruct (trimEnd s) as [|c u] eqn:Hu; [exact I|].
  rewrite Hw in Hs. exact Hs.
Qed.

Lemma trim_no_leading_space s : no_leading_space (trim s).
Proof. apply trimEnd_keeps_head, trimStart_no_leading_space. Qed.

Lemma trim_no_trailing_space s : no_leading_space (rev (trim s)).
Proof.
  unfold trim, trimEnd. rewrite rev_involutive.
  apply trimStart_no_leading_space.
Qed.

Lemma trim_idempotent s : trim (trim s) = trim s.
Proof.
  unfold trim at 1.
  rewrite (trimStart_fixed _ (trim_no_leading_space s)).
  unfold trimEnd.
  rewrite (trimStart_fixed _ (trim_no_trailing_space s)).
  apply rev_involutive.
Qed.

End Trim.

Lemma truthy_nonempty s : truthy s = true -> s <> [].
Proof. destruct s; [discriminate|congruence]. Qed.

Lemma period_not_END f : includes [PERIOD] f = true -> f <> js "END".
Proof. intros H ->. discriminate H. Qed.

Lemma accepted_intro f raw :
  includes [PERIOD] f = true -> trim raw <> [] ->
  accepted (mkEdit f (trim raw)).
Proof.
  intros Hf Hc. unfold accepted; simpl.
  repeat split; auto using trim_idempotent, period_not_END.
Qed.

(** * Facts about the regular expression *)

Section RegexFacts.

Import Regex.

Variable text : jsstring.

Lemma match_at_index i m : match_at text i = Some m -> index m = i.
Proof.
  unfold match_at.
  destruct (at_line_start text i && startsWith (js "===") (skipn i text));
    [|discriminate].
  destruct (spaces_token_close _) as [[[k cap] n]|]; [|discriminate].
  intros [= <-]. reflexivity.
Qed.

Lemma startsWith_length p s :
  startsWith p s = true -> (length p <= length s)%nat.
Proof.
  revert s. induction p as [|c p IH]; intros [|d s]; simpl; try lia;
    try discriminate.
  intros H. apply andb_true_iff in H as [_ H]. apply IH in H. lia.
Qed.

Lemma match_at_in_text i m :
  match_at text i = Some m -> (i + 3 <= length text)%nat.
Proof.
  unfold match_at.
  destruct (at_line_start text i); cbn [andb]; [|discriminate].
  destruct (startsWith (js "===") (skipn i text)) eqn:H; [|discriminate].
  intros _. apply startsWith_length in H.
  rewrite length_skipn in H. simpl in H. lia.
Qed.

Lemma search_finds i more m :
  search text i more = Some m -> match_at text (index m) = Some m.
Proof.
  revert i. induction more as [|more IH]; intros i; simpl;
    destruct (match_at text i) eqn:Hi; try discriminate.
  - intros [= <-]. now rewrite (match_at_index _ _ Hi).
  - intros [= <-]. now rewrite (match_at_index _ _ Hi).
  - apply IH.
Qed.

Lemma search_here i more m :
  match_at text i = Some m -> search text i more = Some m.
Proof. intros H. destruct more; simpl; now rewrite H. Qed.

Lemma exec_finds lastIndex m :
  fst (exec text lastIndex) = Some m -> match_at text (index m) = Some m.
Proof.
  unfold exec. destruct (length text <? lastIndex)%nat; [discriminate|].
  destruct (search text lastIndex _) eqn:Hs; [|discriminate].
  simpl. intros [= <-]. eapply search_finds, Hs.
Qed.

Lemma exec_here i m :
  match_at text i = Some m -> exec text i = (Some m, stop m).
Proof.
  intros H. unfold exec.
  pose proof (match_at_in_text _ _ H) as Hlen.
  destruct (Nat.ltb_spec (length text) i); [lia|].
  now rewrite (search_here _ _ _ H).
Qed.

(** A failed [exec] resets [lastIndex] to 0. *)
Lemma exec_fail_resets lastIndex :
  fst (exec text lastIndex) = None -> snd (exec text lastIndex) = O.
Proof.
  unfold exec. destruct (length text <? lastIndex)%nat; [reflexivity|].
  destruct (search text lastIndex _); [discriminate|reflexivity].
Qed.

End RegexFacts.

(** * The loop of the regex-based parser *)

Section LoopFacts.

Import Regex Part000.

Variable text : jsstring.

Lemma finds_from_match m lastIndex :
  fst (exec text lastIndex) = Some m -> finds_from text (index m).
Proof.
  intros H. exists m. apply exec_finds in H.
  now rewrite (exec_here _ _ _ H).
Qed.

(** When the text holds a delimiter, an iteration started where [exec]
    succeeds ends where [exec] succeeds again: after the last delimiter the
    failed look-ahead has put [lastIndex] back to 0. *)
Lemma loop_iter_continues lastIndex changes :
  finds_from text 0 -> finds_from text lastIndex ->
  exists lastIndex' changes',
    loop_iter text lastIndex changes = Continue lastIndex' changes' /\
    finds_from text lastIndex'.
Proof.
  intros H0 [m Hm]. unfold loop_iter.
  destruct (exec text lastIndex) as [[m1|] l1]; simpl in Hm; [|discriminate].
  destruct (exec text l1) as [[m2|] l2] eqn:H2.
  - eexists _, _. split; [reflexivity|].
    apply (finds_from_match m2 l1). now rewrite H2.
  - eexists _, _. split; [reflexivity|].
    assert (Hl2 : l2 = O).
    { change l2 with (snd (@None MatchResult, l2)). rewrite <- H2.
      apply exec_fail_resets. now rewrite H2. }
    now rewrite Hl2.
Qed.

Lemma loop_continues n : forall lastIndex changes,
  finds_from text 0 -> finds_from text lastIndex ->
  exists lastIndex' changes',
    loop n text lastIndex changes = Continue lastIndex' changes'.
Proof.
  induction n as [|n IH]; intros lastIndex changes H0 Hl; simpl.
  - eauto.
  - destruct (loop_iter_continues _ changes H0 Hl) as (l' & c' & -> & Hl').
    now apply IH.
Qed.

(** The function does not return on a text that holds a delimiter. *)
Lemma parseAIResponse_no_return fuel :
  finds_from text 0 -> parseAIResponse fuel text = None.
Proof.
  intros H0. unfold parseAIResponse.
  destruct (loop_continues fuel _ [] H0 H0) as (l & c & ->). reflexivity.
Qed.

(** It returns the empty list, at the first evaluation of the loop condition,
    on a text that holds none. *)
Lemma parseAIResponse_no_delimiter fuel :
  fst (exec text 0) = None -> parseAIResponse (S fuel) text = Some [].
Proof.
  intros H. unfold parseAIResponse, loop, loop_iter.
  destruct (exec text 0) as [[m|] l]; simpl in H; [discriminate|reflexivity].
Qed.

(** Whatever it returns is the empty list. *)
Lemma parseAIResponse_returns_nil fuel r :
  parseAIResponse fuel text = Some r -> r = [].
Proof.
  intros H. destruct (fst (exec text 0)) as [m|] eqn:H0.
  - rewrite parseAIResponse_no_return in H by (now exists m). discriminate.
  - destruct fuel as [|fuel]; [discriminate|].
    rewrite parseAIResponse_no_delimiter in H by assumption. congruence.
Qed.

Lemma push_if_file_accepted changes fname raw :
  Forall accepted changes ->
  Forall accepted (push_if_file changes fname (trim raw)).
Proof.
  intros H. unfold push_if_file.
  destruct (includes [PERIOD] fname) eqn:Hf; simpl; [|exact H].
  destruct (trim raw) as [|c body] eqn:Hb; simpl; [exact H|].
  apply Forall_app. split; [exact H|].
  constructor; [|constructor].
  rewrite <- Hb. apply accepted_intro; [exact Hf|]. now rewrite Hb.
Qed.

Lemma loop_iter_accepted lastIndex changes :
  Forall accepted changes ->
  Forall accepted (changes_of (loop_iter text lastIndex changes)).
Proof.
  intros H. unfold loop_iter.
  destruct (exec text lastIndex) as [[m1|] l1]; simpl; [|exact H].
  destruct (exec text l1) as [[m2|] l2]; simpl;
    now apply push_if_file_accepted.
Qed.

Lemma loop_accepted n : forall lastIndex changes,
  Forall accepted changes ->
  Forall accepted (changes_of (loop n text lastIndex changes)).
Proof.
  induction n as [|n IH]; intros lastIndex changes H; simpl; [exact H|].
  pose proof (loop_iter_accepted lastIndex _ H) as Hi.
  destruct (loop_iter text lastIndex changes); simpl in *; auto.
Qed.

End LoopFacts.

(** * The split-based parser *)

Section SplitFacts.

Import BuildPipeline.

Lemma parse_part_accepted part e :
  parse_part part = Some e -> accepted e.
Proof.
  unfold parse_part.
  destruct (negb (truthy (trim part))); [discriminate|].
  destruct (length (split [LF] (trim part)) <? 2)%nat; [discriminate|].
  destruct (negb (includes [PERIOD] (trim (hd [] (split [LF] (trim part))))))
    eqn:Hp; [discriminate|].
  destruct (truthy (trim (hd [] (split [LF] (trim part))))); [|discriminate].
  destruct (truthy (trim (join [LF] (tl (split [LF] (trim part)))))) eqn:Hc;
    [|discriminate].
  simpl. intros [= <-]. apply accepted_intro.
  - now apply negb_false_iff in Hp.
  - now apply truthy_nonempty.
Qed.

Lemma collect_accepted parts : Forall accepted (collect parts).
Proof.
  induction parts as [|part rest IH]; simpl; [constructor|].
  destruct (parse_part part) eqn:Hp; [|exact IH].
  constructor; [eapply parse_part_accepted, Hp|exact IH].
Qed.

End SplitFacts.

(** * Properties of the parsers *)

Lemma sample_response_has_delimiter : finds_from sample_response 0.
Proof. eexists. vm_compute. reflexivity. Qed.

(** C1.  The text [=== a.txt ===\nhello\n=== b/c.py ===\nprint(1)\n=== END ===]
    should parse to the two edits [a.txt]/[hello] and [b/c.py]/[print(1)].
    Neither parser returns them.  The regex-based one ([part_000]) has
    collected exactly these two edits after three iterations, but the failed
    look-ahead past [=== END ===] has reset [lastIndex] to 0, so the loop
    starts over at the first delimiter and the function never returns.  The
    split-based one ([build-pipeline.js]) returns the empty list. *)
Theorem sample_response_not_parsed :
  (forall fuel, Part000.parseAIResponse fuel sample_response = None) /\
  Part000.loop 3 sample_response 0 [] =
    Part000.Continue 0 [edit_a_txt; edit_c_py] /\
  Part000.loop 5 sample_response 0 [] =
    Part000.Continue 44 [edit_a_txt; edit_c_py; edit_a_txt; edit_c_py] /\
  BuildPipeline.parseAIResponse sample_response = [].
Proof.
  split.
  - intros fuel. apply parseAIResponse_no_return.
    exact sample_response_has_delimiter.
  - repeat split; vm_compute; reflexivity.
Qed.

(** C2.  Every edit either parser holds or returns has a filename with a
    period and a content that is trimmed and not empty; none is named [END].
    For the regex-based parser this holds of the list [changes] after any
    number of loop iterations, hence of any list it returns. *)
Theorem parsers_only_accept_files (text : jsstring) :
  (forall n, Forall accepted (Part000.changes_of (Part000.loop n text 0 []))) /\
  (forall fuel,
     match Part000.parseAIResponse fuel text with
     | Some r => Forall accepted r
     | None => True
     end) /\
  Forall accepted (BuildPipeline.parseAIResponse text).
Proof.
  assert (H : forall n,
    Forall accepted (Part000.changes_of (Part000.loop n text 0 []))).
  { intros n. apply loop_accepted. constructor. }
  split; [exact H|]. split.
  - intros fuel. unfold Part000.parseAIResponse.
    specialize (H fuel).
    destruct (Part000.loop fuel text 0 []); [exact I|exact H].
  - apply collect_accepted.
Qed.

Lemma three_blocks_has_delimiter : finds_from three_blocks 0.
Proof. eexists. vm_compute. reflexivity. Qed.

(** C3.  On a text with three well-formed blocks [a.b]/[x], [c.d]/[y],
    [e.f]/[z] in this order the result should be these three edits in this
    order.  The regex-based parser has them in [changes], in order, after
    three iterations, then starts over and never returns; the split-based
    parser returns the empty list.  On no text at all does the regex-based
    parser return a list that is not empty. *)
Theorem three_blocks_not_parsed :
  (forall fuel, Part000.parseAIResponse fuel three_blocks = None) /\
  Part000.loop 3 three_blocks 0 [] =
    Part000.Continue 0
      [mkEdit (js "a.b") (js "x"); mkEdit (js "c.d") (js "y");
       mkEdit (js "e.f") (js "z")] /\
  BuildPipeline.parseAIResponse three_blocks = [] /\
  (forall text fuel,
     Part000.parseAIResponse fuel text = None \/
     Part000.parseAIResponse fuel text = Some []).
Proof.
  split.
  - intros fuel. apply parseAIResponse_no_return.
    exact three_blocks_has_delimiter.
  - split; [vm_compute; reflexivity|]. split; [vm_compute; reflexivity|].
    intros text fuel.
    destruct (Part000.parseAIResponse fuel text) as [r|] eqn:Hr; [|now left].
    right. apply parseAIResponse_returns_nil in Hr. now subst r.
Qed.

Lemma END_has_delimiter : finds_from (js "=== END ===") 0.
Proof. eexists. vm_compute. reflexivity. Qed.

(** C4.  A text without accepted blocks should give the empty list.  Both
    parsers return it for [no delimiters here].  On [=== END ===], whose only
    block is rejected, the regex-based parser keeps [changes] empty but never
    returns; on the two lines [a.b] and [c], which hold no delimiter at all,
    the split-based parser returns an edit. *)
Theorem no_accepted_block_cases :
  (forall fuel,
     Part000.parseAIResponse (S fuel) (js "no delimiters here") = Some []) /\
  BuildPipeline.parseAIResponse (js "no delimiters here") = [] /\
  (forall fuel, Part000.parseAIResponse fuel (js "=== END ===") = None) /\
  (forall n, Part000.changes_of (Part000.loop n (js "=== END ===") 0 []) = []) /\
  BuildPipeline.parseAIResponse two_lines = [mkEdit (js "a.b") (js "c")].
Proof.
  split; [|split; [|split; [|split]]].
  - intros fuel. apply parseAIResponse_no_delimiter. vm_compute. reflexivity.
  - vm_compute. reflexivity.
  - intros fuel. apply parseAIResponse_no_return. exact END_has_delimiter.
  - assert (H : forall n, Part000.loop n (js "=== END ===") 0 [] =
                          Part000.Continue 0 []).
    { induction n as [|n IH]; [reflexivity|].
      change (Part000.loop (S n) (js "=== END ===") 0 [])
        with (match Part000.loop_iter (js "=== END ===") 0 [] with
              | Part000.Continue l c => Part000.loop n (js "=== END ===") l c
              | Part000.Return r => Part000.Return r
              end).
      replace (Part000.loop_iter (js "=== END ===") 0 [])
        with (Part000.Continue 0 []) by (vm_compute; reflexivity).
      exact IH. }
    intros n. now rewrite H.
  - vm_compute. reflexivity.
Qed.

(** C10.  The two parsers should agree on every text.  On the two lines [a.b]
    and [c] the split-based parser returns one edit and the regex-based parser
    returns the empty list; on the sample response the split-based parser
    returns the empty list and the regex-based parser does not return. *)
Theorem parsers_disagree :
  BuildPipeline.parseAIResponse two_lines = [mkEdit (js "a.b") (js "c")] /\
  (forall fuel, Part000.parseAIResponse (S fuel) two_lines = Some []) /\
  BuildPipeline.parseAIResponse sample_response = [] /\
  (forall fuel, Part000.parseAIResponse fuel sample_response = None).
Proof.
  split; [vm_compute; reflexivity|]. split.
  - intros fuel. apply parseAIResponse_no_delimiter. vm_compute. reflexivity.
  - split; [vm_compute; reflexivity|].
    intros fuel. apply parseAIResponse_no_return.
    exact sample_response_has_delimiter.
Qed.

(** * Retry with backoff *)

Section RetryFacts.

Import Part000.

Variable E : Env.
Variable prompt : Prompt.
Variable retries : nat.

(** One rate-limited attempt that is not the last of the budget: the call, the
    console line, the wait, then the next iteration with the delay grown. *)
Lemma retry_loop_backs_off n i d :
  rate_limited (gen E i) = true -> i <> (retries - 1)%nat ->
  retry_loop E prompt retries (S n) i d =
    (GenerateContent prompt
       :: ConsoleLog (LRateLimited d (i + 1) retries)
       :: SetTimeout d
       :: fst (retry_loop E prompt retries n (S i)
                 (binary64_mul d binary64_1_5)),
     snd (retry_loop E prompt retries n (S i) (binary64_mul d binary64_1_5))).
Proof.
  intros Hrl Hi. cbn [retry_loop]. unfold generateContent, rate_limited in *.
  destruct (gen E i) as [text|e]; [discriminate|].
  cbn [bind try_catch ret app]. rewrite Hrl. cbn [negb orb].
  apply Nat.eqb_neq in Hi. rewrite Hi.
  unfold log, perform. cbn [bind].
  destruct (retry_loop E prompt retries n (S i)
              (binary64_mul d binary64_1_5)) as [t c].
  destruct c; reflexivity.
Qed.

(** An attempt that throws on the last iteration of the budget, or with a
    message without [429], ends the function with that error. *)
Lemma retry_loop_rethrows n i d e :
  gen E i = GenErr e ->
  includes (js "429") e = false \/ i = (retries - 1)%nat ->
  retry_loop E prompt retries (S n) i d = ([GenerateContent prompt], Thrown e).
Proof.
  intros He Hstop. cbn [retry_loop]. unfold generateContent. rewrite He.
  cbn [bind try_catch ret app].
  destruct Hstop as [-> | ->]; [reflexivity|].
  rewrite Nat.eqb_refl, orb_true_r. reflexivity.
Qed.

(** An attempt that succeeds ends the function with the response. *)
Lemma retry_loop_returns n i d text :
  gen E i = GenOk text ->
  retry_loop E prompt retries (S n) i d =
    ([GenerateContent prompt], Normal (Some text)).
Proof.
  intros Hg. cbn [retry_loop]. unfold generateContent. rewrite Hg.
  reflexivity.
Qed.

Lemma retry_trace_step first n :
  retry_trace prompt retries first (S n) =
  backoff_step prompt retries first ++ retry_trace prompt retries (S first) n.
Proof.
  unfold retry_trace. cbn [seq flat_map]. now rewrite <- app_assoc.
Qed.

Lemma attempts_retry_trace n : forall first,
  attempts (retry_trace prompt retries first n) = S n.
Proof.
  induction n as [|n IH]; intros first; [reflexivity|].
  rewrite retry_trace_step. specialize (IH (S first)).
  unfold attempts in *. cbn [backoff_step app filter length]. now f_equal.
Qed.

Lemma delays_retry_trace n : forall first,
  delays (retry_trace prompt retries first n) =
  map delay_binary64 (seq first n).
Proof.
  induction n as [|n IH]; intros first; [reflexivity|].
  rewrite retry_trace_step. cbn [backoff_step app delays seq map].
  now rewrite IH.
Qed.

Lemma last_retry_trace first n :
  last (retry_trace prompt retries first n) (ConsoleLog LAllDone) =
  GenerateContent prompt.
Proof. unfold retry_trace. apply last_last. Qed.

(** The trace and the outcome of the loop entered at iteration [i] with the
    delay of that iteration: some number [a] of rate-limited attempts, each
    followed by its console line and its wait, then the attempt that ends the
    function, with a response or with an error that is not of rate limiting
    or is that of the last attempt of the budget. *)
Lemma retry_loop_trace n : forall i,
  (i + S n = retries)%nat ->
  let r := retry_loop E prompt retries (S n) i (delay_binary64 i) in
  exists a, (a <= n)%nat /\
    fst r = retry_trace prompt retries i a /\
    (forall j, (i <= j < i + a)%nat -> rate_limited (gen E j) = true) /\
    match snd r with
    | Normal (Some text) => gen E (i + a) = GenOk text
    | Thrown e => gen E (i + a) = GenErr e /\
                  (includes (js "429") e = false \/
                   (i + a)%nat = (retries - 1)%nat)
    | _ => False
    end.
Proof.
  induction n as [|n IH]; intros i Hn; cbn zeta.
  - destruct (gen E i) as [text|e] eqn:Hg.
    + rewrite (retry_loop_returns 0 i _ text Hg).
      exists 0%nat. rewrite Nat.add_0_r. cbn [fst snd].
      conjuncts; [lia | reflexivity | intros j Hj; lia | exact Hg].
    + rewrite (retry_loop_rethrows 0 i _ e Hg) by (right; lia).
      exists 0%nat. rewrite Nat.add_0_r. cbn [fst snd].
      conjuncts; [lia | reflexivity | intros j Hj; lia | exact Hg
                 | right; lia].
  - destruct (gen E i) as [text|e] eqn:Hg.
    + rewrite (retry_loop_returns (S n) i _ text Hg).
      exists 0%nat. rewrite Nat.add_0_r. cbn [fst snd].
      conjuncts; [lia | reflexivity | intros j Hj; lia | exact Hg].
    + destruct (includes (js "429") e) eqn:H429.
      * rewrite retry_loop_backs_off
          by (try lia; unfold rate_limited; rewrite Hg; exact H429).
        change (binary64_mul (delay_binary64 i) binary64_1_5)
          with (delay_binary64 (S i)).
        destruct (IH (S i)) as (a & Ha & Ht & Hrl & Hc); [lia|].
        exists (S a). cbn [fst snd]. rewrite Ht.
        replace (i + S a)%nat with (S i + a)%nat by lia.
        conjuncts.
        -- lia.
        -- rewrite retry_trace_step. reflexivity.
        -- intros j Hj. destruct (Nat.eq_dec j i) as [->|Hji].
           ++ unfold rate_limited. rewrite Hg. exact H429.
           ++ apply Hrl. lia.
        -- exact Hc.
      * rewrite (retry_loop_rethrows (S n) i _ e Hg) by (left; exact H429).
        exists 0%nat. rewrite Nat.add_0_r. cbn [fst snd].
        conjuncts; [lia | reflexivity | intros j Hj; lia | exact Hg
                   | left; exact H429].
Qed.

(** The same for the whole function, with a budget of at least one
    attempt. *)
Lemma callGeminiWithRetry_trace :
  (1 <= retries)%nat ->
  let r := callGeminiWithRetry E prompt retries in
  exists a, (a < retries)%nat /\
    fst r = retry_trace prompt retries 0 a /\
    (forall j, (j < a)%nat -> rate_limited (gen E j) = true) /\
    match snd r with
    | Normal (Some text) => gen E a = GenOk text
    | Thrown e => gen E a = GenErr e /\
                  (includes (js "429") e = false \/ a = (retries - 1)%nat)
    | _ => False
    end.
Proof.
  intros Hr. unfold callGeminiWithRetry.
  destruct retries as [|n] eqn:Hn; [lia|]. rewrite <- Hn.
  assert (H0 : (0 + S n = retries)%nat) by lia.
  destruct (retry_loop_trace n 0 H0) as (a & Ha & Ht & Hrl & Hc).
  change (delay_binary64 0) with binary64_60000 in *.
  rewrite Hn in *.
  exists a. conjuncts; [lia | exact Ht | intros j Hj; apply Hrl; lia
                       | exact Hc].
Qed.

(** The attempt that ends the function is attempt [i] when the attempts
    before it are rate-limited and attempt [i] is not, or is the last of the
    budget. *)
Lemma callGeminiWithRetry_stops_at i :
  (i < retries)%nat ->
  (forall j, (j < i)%nat -> rate_limited (gen E j) = true) ->
  rate_limited (gen E i) = false \/ i = (retries - 1)%nat ->
  let r := callGeminiWithRetry E prompt retries in
  fst r = retry_trace prompt retries 0 i /\
  match snd r with
  | Normal (Some text) => gen E i = GenOk text
  | Thrown e => gen E i = GenErr e
  | _ => False
  end.
Proof.
  intros Hi Hrl Hstop. cbn zeta.
  destruct callGeminiWithRetry_trace as (a & Ha & Ht & Hbefore & Hc);
    [lia|].
  assert (a = i) as ->.
  { destruct (Nat.lt_trichotomy a i) as [Hlt | [Heq | Hgt]];
      [|exact Heq|].
    - specialize (Hrl a Hlt). unfold rate_limited in Hrl.
      destruct (snd (callGeminiWithRetry E prompt retries)) as [[text|]|e| |];
        try contradiction.
      + rewrite Hc in Hrl. discriminate.
      + destruct Hc as [Hg Hwhy]. rewrite Hg in Hrl.
        destruct Hwhy as [H429 | Hlast]; [congruence | lia].
    - specialize (Hbefore i Hgt).
      destruct Hstop as [Hnot | Hlast]; [congruence | lia]. }
  split; [exact Ht|].
  destruct (snd (callGeminiWithRetry E prompt retries)) as [[text|]|e| |];
    try contradiction; [exact Hc | apply Hc].
Qed.

End RetryFacts.

(** The binary64 delay is the exact product [60000 * 1.5 ^ k] for the first
    27 values, that is for every budget up to 28 attempts; the next product
    would need a 54-bit mantissa and is rounded. *)
Remark delay_exact_up_to_27 :
  forallb delay_is_exact (seq 0 27) = true /\ delay_is_exact 27 = false.
Proof. split; vm_compute; reflexivity. Qed.


(** With an empty budget the loop body never runs: no call is made and the
    function returns [undefined]. *)
Remark callGeminiWithRetry_no_budget (E : Env) (prompt : Prompt) :
  Part000.callGeminiWithRetry E prompt 0 = ([], Normal None).
Proof. reflexivity. Qed.




(** C6.  When attempt number [i] of the budget (counted from 0) fails with an
    error whose message does not hold [429], the attempts before it having
    been rate-limited, [callGeminiWithRetry] throws that very error: it has
    called the service [i + 1] times, waited only for the [i] earlier
    attempts, and the call is the last thing it did. *)
Theorem callGeminiWithRetry_propagates
  (E : Env) (prompt : Prompt) (retries i : nat) (e : jsstring) :
  (i < retries)%nat ->
  (forall j, (j < i)%nat -> rate_limited (gen E j) = true) ->
  gen E i = GenErr e ->
  includes (js "429") e = false ->
  let r := Part000.callGeminiWithRetry E prompt retries in
  snd r = Thrown e /\
  attempts (fst r) = S i /\
  length (delays (fst r)) = i /\
  last (fst r) (ConsoleLog LAllDone) = GenerateContent prompt.
Proof.
  intros Hi Hrl He H429. cbn zeta.
  destruct (callGeminiWithRetry_stops_at E prompt retries i Hi Hrl)
    as [Ht Hc]; [left; unfold rate_limited; rewrite He; exact H429|].
  rewrite Ht, attempts_retry_trace, delays_retry_trace, last_retry_trace.
  rewrite length_map, length_seq.
  conjuncts; try reflexivity.
  destruct (snd (Part000.callGeminiWithRetry E prompt retries))
    as [[text|]|e'| |]; try contradiction; congruence.
Qed.

Lemma callGeminiWithRetry_propagates_witness :
  let r := Part000.callGeminiWithRetry Sample.fails_second Sample.no_prompt 3 in
  snd r = Thrown (js "API key not valid") /\
  attempts (fst r) = 2%nat /\
  length (delays (fst r)) = 1%nat /\
  last (fst r) (ConsoleLog LAllDone) = GenerateContent Sample.no_prompt.
Proof.
  apply (callGeminiWithRetry_propagates Sample.fails_second Sample.no_prompt 3 1
           (js "API key not valid")).
  - lia.
  - intros j Hj. assert (j = 0%nat) by lia. subst j. reflexivity.
  - reflexivity.
  - reflexivity.
Defined.

(** * Traces of composed computations *)

Section TraceFacts.

Variable ok : action -> Prop.

Lemma all_actions_ret {A} (a : A) : all_actions ok (ret a).
Proof. constructor. Qed.

Lemma all_actions_throw {A} e : all_actions ok (@throw A e).
Proof. constructor. Qed.

Lemma all_actions_perform a : ok a -> all_actions ok (perform a).
Proof. intros H. constructor; [exact H|constructor]. Qed.

Lemma all_actions_bind {A B} (m : M A) (k : A -> M B) :
  all_actions ok m -> (forall a, all_actions ok (k a)) ->
  all_actions ok (bind m k).
Proof.
  unfold all_actions. destruct m as [t [a|e|n|]]; simpl; intros Ht Hk; auto.
  specialize (Hk a). destruct (k a) as [t' c]. simpl in *.
  apply Forall_app. split; assumption.
Qed.

Lemma all_actions_try_catch {A} (m : M A) (h : jsstring -> M A) :
  all_actions ok m -> (forall e, all_actions ok (h e)) ->
  all_actions ok (try_catch m h).
Proof.
  unfold all_actions. destruct m as [t [a|e|n|]]; simpl; intros Ht Hh; auto.
  specialize (Hh e). destruct (h e) as [t' c]. simpl in *.
  apply Forall_app. split; assumption.
Qed.

End TraceFacts.

Lemma harmless_spares_queue P a : harmless a -> spares_queue P a.
Proof. destruct a; simpl; intros H; try reflexivity; contradiction. Qed.

Lemma harmless_trace t :
  Forall harmless t ->
  file_writes t = [] /\ commands t = [] /\ directories t = [].
Proof.
  induction 1 as [|a t Ha _ IH]; [auto|].
  destruct a; simpl in *; try contradiction; exact IH.
Qed.

Section QueueFacts.

Variable P : Platform.

Lemma queue_after_app q t1 t2 :
  queue_after P q (t1 ++ t2) = queue_after P (queue_after P q t1) t2.
Proof.
  revert q. induction t1 as [|a t1 IH]; intros q; [reflexivity|].
  destruct a; simpl; auto; destruct (is_backlog_path P path); auto.
Qed.

Lemma queue_after_spared q t :
  Forall (spares_queue P) t -> queue_after P q t = q.
Proof.
  induction 1 as [|a t Ha _ IH]; [reflexivity|].
  destruct a; simpl; auto;
    unfold spares_queue in Ha; simpl in Ha; now rewrite Ha.
Qed.

Lemma queue_history_spared q t t' :
  Forall (spares_queue P) t ->
  queue_history P q (t ++ t') = queue_history P q t'.
Proof.
  induction 1 as [|a t Ha _ IH]; [reflexivity|].
  destruct a; simpl; auto;
    unfold spares_queue in Ha; simpl in Ha; now rewrite Ha.
Qed.

Lemma queue_history_quiet q t :
  Forall (spares_queue P) t -> queue_history P q t = [q].
Proof.
  intros H. rewrite <- (app_nil_r t). now rewrite queue_history_spared.
Qed.

Lemma runs_app cmd t1 t2 :
  runs cmd (t1 ++ t2) = runs cmd t1 || runs cmd t2.
Proof. apply existsb_app. Qed.

Lemma calm_no_push t : Forall (calm P) t -> runs CMD_PUSH t = false.
Proof.
  induction 1 as [|a t [_ Ha] _ IH]; [reflexivity|].
  destruct a; simpl; auto. now rewrite Ha.
Qed.

Lemma calm_spares t :
  Forall (calm P) t -> Forall (spares_queue P) t.
Proof. apply Forall_impl. now intros a [H _]. Qed.

Lemma harmless_calm a : harmless a -> calm P a.
Proof.
  destruct a; simpl; intros H; try contradiction; split;
    solve [reflexivity | exact I].
Qed.

Lemma published_calm E t : Forall (calm P) t -> published E t = false.
Proof. intros H. unfold published. now rewrite calm_no_push. Qed.

Lemma published_app_calm E t t' :
  Forall (calm P) t -> published E (t ++ t') = published E t'.
Proof. intros H. unfold published. now rewrite runs_app, calm_no_push. Qed.

Lemma published_app_calm_r E t t' :
  Forall (calm P) t' -> published E (t ++ t') = published E t.
Proof.
  intros H. unfold published.
  now rewrite runs_app, (calm_no_push t'), orb_false_r.
Qed.

Lemma published_app_l E t t' :
  published E t = true -> published E (t ++ t') = true.
Proof.
  unfold published. rewrite runs_app. intros H.
  apply andb_true_iff in H as [-> ->]. reflexivity.
Qed.

End QueueFacts.

(** * The steps of [main] *)

Section StepFacts.

Variable P : Platform.
Variable E : Env.

Lemma load_backlog_harmless : all_actions harmless (load_backlog P E).
Proof.
  unfold load_backlog. apply all_actions_bind.
  - unfold readFileSync. destruct (backlog_file E);
      [apply all_actions_perform with (a := ReadFile BACKLOG_JSON)
      |apply all_actions_throw]; exact I.
  - intros raw. destruct (JSON_parse P raw);
      [apply all_actions_ret|apply all_actions_throw].
Qed.

Lemma log_harmless l : all_actions harmless (log l).
Proof. apply all_actions_perform. exact I. Qed.

Lemma build_prompt_harmless b task :
  all_actions harmless (build_prompt E b task).
Proof.
  unfold build_prompt. apply all_actions_bind.
  - apply all_actions_perform with (a := ReadDir (js ".")). exact I.
  - intros all. apply all_actions_ret.
Qed.

Lemma generateContent_harmless n p :
  all_actions harmless (generateContent E n p).
Proof.
  unfold generateContent.
  destruct (gen E n); (constructor; [exact I|constructor]).
Qed.

Lemma on_error_harmless e : all_actions harmless (on_error e).
Proof.
  unfold on_error. apply all_actions_bind.
  - apply all_actions_perform. exact I.
  - intros _. constructor.
Qed.

Lemma retry_loop_harmless p retries n : forall i d,
  all_actions harmless (Part000.retry_loop E p retries n i d).
Proof.
  induction n as [|n IH]; intros i d; cbn [Part000.retry_loop].
  - apply all_actions_ret.
  - apply all_actions_try_catch.
    + apply all_actions_bind; [apply generateContent_harmless|].
      intros r. apply all_actions_ret.
    + intros e. destruct (_ || _); [apply all_actions_throw|].
      apply all_actions_bind; [apply log_harmless|]. intros _.
      apply all_actions_bind; [apply all_actions_perform; exact I|].
      intros _. apply IH.
Qed.

Lemma harmless_is_calm {A} (m : M A) :
  all_actions harmless m -> all_actions (calm P) m.
Proof. apply Forall_impl, harmless_calm. Qed.

Lemma log_calm l : all_actions (calm P) (log l).
Proof. apply harmless_is_calm, log_harmless. Qed.

Lemma mkdirSync_calm dir : all_actions (calm P) (mkdirSync E dir).
Proof.
  unfold mkdirSync. destruct (mkdir_err E dir);
    [apply all_actions_throw|apply all_actions_perform; now split].
Qed.

(** A call of [fs.writeFileSync] on another file, whether it succeeds, fails
    before it has opened the file or fails while it writes. *)
Lemma writeFileSync_calm path data :
  is_backlog_path P path = false ->
  all_actions (calm P) (writeFileSync E path data).
Proof.
  intros H. unfold writeFileSync.
  destruct (write_err E path) as [[e [k|]]|].
  - constructor; [now split|constructor].
  - apply all_actions_throw.
  - apply all_actions_perform. now split.
Qed.

Lemma apply_changes_calm changes : forall has,
  Forall (fun e => is_backlog_path P (filename e) = false) changes ->
  all_actions (calm P) (apply_changes P E changes has).
Proof.
  induction changes as [|c rest IH]; intros has Hq; simpl.
  - apply all_actions_ret.
  - inversion Hq as [|? ? Hc Hrest]; subst.
    apply all_actions_bind; [|intros _; now apply IH].
    unfold apply_change.
    apply all_actions_bind.
    { destruct (_ && _); [apply mkdirSync_calm|apply all_actions_ret]. }
    intros _. apply all_actions_bind; [now apply writeFileSync_calm|].
    intros _. apply log_calm.
Qed.

(** The loop leaves [hasChanges] true exactly when it has run at least
    once. *)
Lemma apply_changes_flag changes t has :
  apply_changes P E changes false = (t, Normal has) ->
  has = true <-> changes <> [].
Proof.
  destruct changes as [|c rest]; simpl.
  - intros [= _ <-]. split; [discriminate|congruence].
  - intros H. split; [discriminate|intros _].
    assert (Htrue : forall l t' h,
              apply_changes P E l true = (t', Normal h) -> h = true).
    { induction l as [|c' l IH]; simpl; intros t' h.
      - now intros [= _ <-].
      - destruct (apply_change P E c') as [t1 [[]|e|n|]]; simpl;
          try discriminate.
        destruct (apply_changes P E l true) as [t2 c2] eqn:H2.
        intros [= _ ->]. eapply IH. reflexivity. }
    destruct (apply_change P E c) as [t1 [[]|e|n|]]; simpl in H;
      try discriminate.
    destruct (apply_changes P E rest true) as [t2 c2] eqn:H2.
    injection H as _ ->. eapply Htrue, H2.
Qed.

Lemma write_note_calm task response :
  is_backlog_path P (note_path (today E) task) = false ->
  all_actions (calm P) (write_note E task response).
Proof.
  intros H. unfold write_note.
  apply all_actions_bind; [apply mkdirSync_calm|].
  intros _. now apply writeFileSync_calm.
Qed.

(** Validation never fails. *)
Lemma validate_normal :
  snd (validate E) = Normal tt /\ all_actions (calm P) (validate E).
Proof.
  unfold validate, execSync, log, perform.
  destruct (exec_err E CMD_CHECK), (exec_err E CMD_BUILD); simpl;
    (split; [reflexivity|repeat constructor]).
Qed.

Lemma cmd_commit_not_push task : eqb (cmd_commit task) CMD_PUSH = false.
Proof. reflexivity. Qed.

(** The publish step never writes a file; it is completed exactly when it
    ends normally, and then each of its five commands has succeeded. *)
Lemma publish_outcome task :
  all_actions (spares_queue P) (publish E task) /\
  (snd (publish E task) = Normal tt ->
   published E (fst (publish E task)) = true /\ publish_ok E task = true) /\
  (snd (publish E task) <> Normal tt ->
   published E (fst (publish E task)) = false).
Proof.
  unfold publish, publish_ok, published, execSync, perform, all_actions.
  destruct (exec_err E CMD_USER_NAME);
    [cbn; conjuncts; [repeat constructor|discriminate|reflexivity]|].
  destruct (exec_err E CMD_USER_EMAIL);
    [cbn; conjuncts; [repeat constructor|discriminate|reflexivity]|].
  destruct (exec_err E CMD_ADD);
    [cbn; conjuncts; [repeat constructor|discriminate|reflexivity]|].
  destruct (exec_err E (cmd_commit task));
    [cbn; rewrite ?cmd_commit_not_push;
     conjuncts; [repeat constructor|discriminate|reflexivity]|].
  destruct (exec_err E CMD_PUSH) eqn:Hpush;
    cbn; rewrite ?cmd_commit_not_push; cbn.
  - conjuncts; [repeat constructor|discriminate|reflexivity].
  - conjuncts; [repeat constructor| |congruence].
    intros _. split; reflexivity.
Qed.

Lemma publish_normal task :
  snd (publish E task) = Normal tt -> publish_ok E task = true.
Proof. intros H. now apply publish_outcome. Qed.

End StepFacts.

(** * Gating of the queue advance *)

Section Gating.

Variable P : Platform.
Variable E : Env.
Variable b : Backlog.
Variable G : Prop.

Lemma gated_bind {A} (m : M A) (k : A -> M unit) :
  all_actions (calm P) m ->
  (forall a, snd m = Normal a -> gated P E b G (k a)) ->
  gated P E b G (bind m k).
Proof.
  unfold gated, all_actions.
  destruct m as [t [a|e|n|]]; cbn [fst snd bind]; intros Ht Hk;
    try (left; split; [now apply calm_spares
                      | now apply published_calm with P]).
  specialize (Hk a eq_refl). destruct (k a) as [t' c]. cbn [fst snd] in *.
  destruct Hk as [[Hq Hn]|(t0 & t1 & Hf & Hq0 & Hq1 & Hp & HG)].
  - left. split.
    + apply Forall_app. split; [now apply calm_spares|assumption].
    + now rewrite (published_app_calm P).
  - right. exists (t ++ t0), t1. rewrite Hf, app_assoc.
    conjuncts; auto.
    + apply Forall_app. split; [now apply calm_spares|assumption].
    + now rewrite (published_app_calm P).
Qed.

Lemma gated_try_catch (m : M unit) :
  gated P E b G m -> gated P E b G (try_catch m on_error).
Proof.
  unfold gated, all_actions.
  destruct m as [t [[]|e|n|]];
    cbn [fst snd try_catch on_error bind perform exit app]; auto.
  assert (Hcalm : Forall (calm P) [ConsoleError e])
    by (repeat constructor).
  intros [[Hq Hn]|(t0 & t1 & Hf & Hq0 & Hq1 & Hp & HG)].
  - left. split.
    + apply Forall_app. split; [exact Hq|now apply calm_spares].
    + now rewrite (published_app_calm_r P).
  - right. exists t0, (t1 ++ [ConsoleError e]). rewrite Hf.
    conjuncts; auto.
    + now rewrite <- !app_assoc.
    + apply Forall_app. split; [exact Hq1|now apply calm_spares].
Qed.

End Gating.

Section MainFacts.

Variable P : Platform.
Variable E : Env.
Variable b : Backlog.

(** The publish step followed by the advance of the queue. *)
Lemma publish_persist_gated task rest (G : Prop) :
  pending b = task :: rest ->
  (publish_ok E task = true -> G) ->
  gated P E b G (publish E task ;; persist_advance P E b task).
Proof.
  intros Hb HG.
  destruct (publish_outcome P E task) as (Hsp & Hok & Hfail).
  unfold all_actions in Hsp.
  destruct (publish E task) as [tp [[]|e|n|]]; cbn [fst snd bind] in *;
    try (left; split; [exact Hsp | apply Hfail; discriminate]).
  destruct (Hok eq_refl) as [Hpub Hall].
  unfold persist_advance, gated, final_write, writeFileSync, log, perform,
    throw.
  destruct (write_err E BACKLOG_JSON) as [[e [k|]]|]; cbn [fst snd bind app].
  - right. exists tp, []. conjuncts; auto.
  - right. exists tp, []. conjuncts; auto.
  - right. exists tp, [ConsoleLog (LComplete task)].
    conjuncts; auto. repeat constructor.
Qed.

Lemma apply_and_publish_gated task rest response changes :
  pending b = task :: rest ->
  spare_queue P changes ->
  is_backlog_path P (note_path (today E) task) = false ->
  gated P E b (publish_ok E task = true /\ changes <> [])
        (apply_and_publish P E b task response changes).
Proof.
  intros Hb Hch Hnote. unfold apply_and_publish.
  apply gated_bind; [now apply apply_changes_calm|].
  intros has Hhas.
  destruct (apply_changes P E changes false) as [t1 c1] eqn:H1.
  simpl in Hhas. subst c1. apply apply_changes_flag in H1.
  apply gated_bind; [now apply write_note_calm|]. intros [] _.
  destruct has.
  - assert (Hne : changes <> []) by now apply H1.
    apply gated_bind; [apply validate_normal|]. intros [] _.
    apply publish_persist_gated with (rest := rest); [exact Hb|].
    intros Hpub. split; [exact Hpub|exact Hne].
  - left. split; [|reflexivity]. repeat constructor.
Qed.

Variable raw : jsstring.
Hypothesis file_holds_raw : backlog_file E = Some raw.
Hypothesis raw_is_b : JSON_parse P raw = Some b.
Hypothesis note_spared : note_spares_queue P E b.

Lemma load_backlog_value :
  load_backlog P E = ([ReadFile BACKLOG_JSON], Normal b).
Proof.
  unfold load_backlog, readFileSync.
  rewrite file_holds_raw. simpl. now rewrite raw_is_b.
Qed.

Lemma build_pipeline_main_gated :
  spare_queue P (edits_of_run E) ->
  gated P E b (head_published E b = true /\ edits_of_run E <> [])
        (BuildPipeline.main P E).
Proof.
  intros Hed. unfold BuildPipeline.main.
  apply gated_try_catch. rewrite load_backlog_value.
  apply gated_bind; [repeat constructor|]. intros b' [= <-].
  unfold head_published. pose proof note_spared as Hnote.
  unfold note_spares_queue in Hnote.
  destruct (pending b) as [|task rest] eqn:Hb.
  - left. split; [repeat constructor|reflexivity].
  - apply gated_bind; [apply log_calm|]. intros [] _.
    apply gated_bind; [apply harmless_is_calm, build_prompt_harmless|].
    intros prompt _.
    apply gated_bind; [apply harmless_is_calm, generateContent_harmless|].
    intros response Hresp.
    assert (Hrun : edits_of_run E = BuildPipeline.parseAIResponse response).
    { unfold edits_of_run. unfold generateContent in Hresp.
      destruct (gen E 0); simpl in Hresp; congruence. }
    apply gated_bind; [apply log_calm|]. intros [] _.
    rewrite Hrun in *.
    apply apply_and_publish_gated with (rest := rest); auto.
Qed.

Lemma part000_main_gated parse :
  parser_spares_queue P parse ->
  gated P E b (head_published E b = true) (Part000.main_with parse P E).
Proof.
  intros Hparse. unfold Part000.main_with.
  apply gated_try_catch. rewrite load_backlog_value.
  apply gated_bind; [repeat constructor|]. intros b' [= <-].
  unfold head_published. pose proof note_spared as Hnote.
  unfold note_spares_queue in Hnote.
  destruct (pending b) as [|task rest] eqn:Hb.
  - left. split; [repeat constructor|reflexivity].
  - apply gated_bind; [apply log_calm|]. intros [] _.
    apply gated_bind; [apply harmless_is_calm, build_prompt_harmless|].
    intros prompt _.
    apply gated_bind; [apply harmless_is_calm, retry_loop_harmless|].
    intros [response|] _.
    + apply gated_bind; [apply log_calm|]. intros [] _.
      destruct (parse response) as [[|c l]|] eqn:Hp.
      * left. split; [repeat constructor|reflexivity].
      * pose proof (apply_and_publish_gated task rest response (c :: l)
                      Hb (Hparse _ _ Hp) Hnote) as Hg.
        destruct Hg as [Hl|(t0 & t1 & Hf & Hq0 & Hq1 & Hpub & Hok & _)].
        -- left. exact Hl.
        -- right. exists t0, t1. conjuncts; auto.
      * left. split; [constructor|reflexivity].
    + left. split; [constructor|reflexivity].
Qed.

(** In [part_000] as it is, the parser returns nothing but the empty list,
    so [main] never gets past its early return: it writes no file, creates no
    directory and runs no command. *)
Lemma part000_main_harmless fuel :
  all_actions harmless (Part000.main fuel P E).
Proof.
  unfold Part000.main, Part000.main_with. apply all_actions_try_catch;
    [|apply on_error_harmless].
  apply all_actions_bind; [apply load_backlog_harmless|]. intros b'.
  destruct (pending b') as [|task rest].
  { apply all_actions_bind; [apply log_harmless|]. intros _. constructor. }
  apply all_actions_bind; [apply log_harmless|]. intros _.
  apply all_actions_bind; [apply build_prompt_harmless|]. intros prompt.
  apply all_actions_bind; [apply retry_loop_harmless|]. intros [response|].
  - apply all_actions_bind; [apply log_harmless|]. intros _.
    destruct (Part000.parseAIResponse fuel response) as [r|] eqn:Hr.
    + apply parseAIResponse_returns_nil in Hr. subst r. apply log_harmless.
    + constructor.
  - apply all_actions_throw.
Qed.

Hypothesis queue_path : is_backlog_path P BACKLOG_JSON = true.

(** The queue document over a gated computation: untouched when the publish
    step is not completed; otherwise what the one call of [fs.writeFileSync]
    that follows the publish step makes of it. *)
Lemma gated_outcome (G : Prop) (m : M unit) :
  gated P E b G m ->
  let new := JSON_stringify P (advance b) in
  let h := queue_history P (Some raw) (fst m) in
  let q := queue_after P (Some raw) (fst m) in
  (published E (fst m) = false /\ h = [Some raw] /\ q = Some raw) \/
  (published E (fst m) = true /\ G /\
   match write_err E BACKLOG_JSON with
   | None => h = Some raw :: during_write new ++ [Some new] /\ q = Some new
   | Some (_, None) => h = [Some raw] /\ q = Some raw
   | Some (_, Some k) =>
       h = Some raw :: during_write (firstn k new) ++ [Some (firstn k new)] /\
       q = Some (firstn k new)
   end).
Proof.
  intros [[Hq Hp]|(t0 & t1 & Hf & Hq0 & Hq1 & Hp & HG)]; cbn zeta.
  - left. unfold all_actions in Hq. conjuncts; [exact Hp| |].
    + now apply queue_history_quiet.
    + now apply queue_after_spared.
  - right. rewrite Hf. split; [now apply published_app_l|].
    split; [exact HG|].
    rewrite queue_history_spared by assumption.
    rewrite queue_after_app, (queue_after_spared P (Some raw) t0 Hq0).
    unfold final_write, writeFileSync, perform, throw.
    destruct (write_err E BACKLOG_JSON) as [[e [k|]]|];
      cbn [fst app queue_history queue_after]; rewrite ?queue_path;
      rewrite ?queue_history_quiet by assumption;
      rewrite ?queue_after_spared by assumption; split; reflexivity.
Qed.

End MainFacts.

(** * Properties of the queue *)

Lemma advance_moves_head b T1 rest :
  pending b = T1 :: rest ->
  advance b = mkBacklog rest (completed b ++ [T1]) (phases b).
Proof. unfold advance. now intros ->. Qed.

Lemma advance_keeps_tasks b :
  Permutation (pending b ++ completed b)
              (pending (advance b) ++ completed (advance b)).
Proof.
  unfold advance. destruct (pending b) as [|T1 rest] eqn:Hb; simpl.
  - rewrite Hb. reflexivity.
  - rewrite app_assoc. apply Permutation_cons_append.
Qed.

Lemma sample_note_spares_queue text failing :
  note_spares_queue Sample.platform (Sample.answering text failing)
    Sample.backlog.
Proof. reflexivity. Qed.

(** The parser of [part_000] satisfies the assumption made on parsers. *)
Lemma part000_parser_spares_queue P fuel :
  parser_spares_queue P (Part000.parseAIResponse fuel).
Proof.
  intros text edits H. apply parseAIResponse_returns_nil in H. subst edits.
  constructor.
Qed.

(** C7, counterexample: two runs of [build-pipeline.js] after which the
    queue document is neither what it was nor the advanced backlog.

    In the first the service answers with the two lines [backlog.json] and
    [{}]; the split-based parser makes an edit of them, which [main] writes
    over the queue document; [git push] then fails.  The run exits with
    status 1 and the queue document holds [{}].

    In the second one edit of another file is applied and each of the five
    commands of the publish step succeeds; [fs.writeFileSync] then fails on
    [backlog.json] after ten code units.  The run exits with status 1 and the
    queue document holds these ten code units. *)
Lemma queue_left_in_neither_state :
  let P := Sample.platform in
  (let E := Sample.answering Sample.overwriting_response [CMD_PUSH] in
   let r := BuildPipeline.main P E in
   snd r = Exit 1%Z /\
   queue_after P (Some Sample.document) (fst r) = Some (js "{}") /\
   ~ unchanged_or_advanced P Sample.document Sample.backlog (fst r)) /\
  (let E := torn_advance Sample.one_file_response 10 in
   let r := BuildPipeline.main P E in
   spare_queue P (edits_of_run E) /\
   published E (fst r) = true /\
   snd r = Exit 1%Z /\
   queue_after P (Some Sample.document) (fst r) =
     Some (firstn 10 (JSON_stringify P (advance Sample.backlog))) /\
   ~ unchanged_or_advanced P Sample.document Sample.backlog (fst r)).
Proof.
  cbn zeta. conjuncts; try (vm_compute; reflexivity).
  - unfold unchanged_or_advanced. intros [H|H]; vm_compute in H; discriminate.
  - vm_compute. repeat constructor.
  - unfold unchanged_or_advanced. intros [H|H]; vm_compute in H; discriminate.
Qed.

(** C7, as amended.  Take a run that starts from a well-formed queue document
    and in which neither an edit nor the progress note is written through a
    path designating that document.  The document is written at most once,
    by the call of [fs.writeFileSync] that follows a completed publish step.
    So after the run it is unchanged when the publish step is not completed,
    that is when it is not reached, as when no edit is applied, or when one
    of its commands fails; and when the publish step is completed it holds
    the advanced backlog, provided the write does not fail.  A write that
    fails leaves the previous document, when the file could not be opened, or
    the code units written so far.  This holds of [main] in
    [build-pipeline.js] and of [main] in [part_000], whatever the parser
    called there returns.  Advancing moves the head of [pending] to the end
    of [completed] and keeps everything else, so no task is lost or
    duplicated, and none is in both lists if none was. *)
Theorem queue_advance_gated
  (P : Platform) (E : Env) (raw : jsstring) (b : Backlog) :
  is_backlog_path P BACKLOG_JSON = true ->
  backlog_file E = Some raw ->
  JSON_parse P raw = Some b ->
  note_spares_queue P E b ->
  let new := JSON_stringify P (advance b) in
  let settled (t : list action) :=
    let q := queue_after P (Some raw) t in
    (published E t = false -> q = Some raw) /\
    (published E t = true ->
     head_published E b = true /\
     match write_err E BACKLOG_JSON with
     | None => q = Some new
     | Some (_, None) => q = Some raw
     | Some (_, Some k) => q = Some (firstn k new)
     end) /\
    (head_published E b = false -> q = Some raw) /\
    (write_err E BACKLOG_JSON = None -> unchanged_or_advanced P raw b t) in
  (spare_queue P (edits_of_run E) ->
   let r := BuildPipeline.main P E in
   settled (fst r) /\
   (edits_of_run E = [] -> queue_after P (Some raw) (fst r) = Some raw)) /\
  (forall parse, parser_spares_queue P parse ->
   settled (fst (Part000.main_with parse P E))) /\
  (forall T1 rest, pending b = T1 :: rest ->
     advance b = mkBacklog rest (completed b ++ [T1]) (phases b)) /\
  Permutation (pending b ++ completed b)
              (pending (advance b) ++ completed (advance b)) /\
  (NoDup (pending b ++ completed b) ->
   NoDup (pending (advance b) ++ completed (advance b))).
Proof.
  intros Hpath Hfile Hparse Hnote. cbn zeta.
  assert (Hsettled : forall (G : Prop) (m : M unit),
    (G -> head_published E b = true) ->
    gated P E b G m ->
    (published E (fst m) = false ->
     queue_after P (Some raw) (fst m) = Some raw) /\
    (published E (fst m) = true ->
     head_published E b = true /\
     match write_err E BACKLOG_JSON with
     | None => queue_after P (Some raw) (fst m) =
               Some (JSON_stringify P (advance b))
     | Some (_, None) => queue_after P (Some raw) (fst m) = Some raw
     | Some (_, Some k) =>
         queue_after P (Some raw) (fst m) =
         Some (firstn k (JSON_stringify P (advance b)))
     end) /\
    (head_published E b = false ->
     queue_after P (Some raw) (fst m) = Some raw) /\
    (write_err E BACKLOG_JSON = None ->
     unchanged_or_advanced P raw b (fst m))).
  { intros G m HG Hg.
    pose proof (gated_outcome P E b raw Hpath G m Hg) as Hh. cbn zeta in Hh.
    unfold unchanged_or_advanced.
    destruct Hh as [(Hp & _ & Hq)|(Hp & Hok & Hw)].
    - conjuncts; auto. intros Hp'. congruence.
    - apply HG in Hok. conjuncts.
      + intros Hp'. congruence.
      + intros _. split; [exact Hok|].
        destruct (write_err E BACKLOG_JSON) as [[e [k|]]|]; apply Hw.
      + intros Hno. congruence.
      + intros Hno. rewrite Hno in Hw. right. apply Hw. }
  split; [|split; [|split; [|split]]].
  - intros Hed.
    pose proof (build_pipeline_main_gated P E b raw Hfile Hparse Hnote Hed)
      as Hg.
    split; [apply (Hsettled _ _ (@proj1 _ _) Hg)|].
    intros Hnil.
    destruct (gated_outcome P E b raw Hpath _ _ Hg)
      as [(_ & _ & Hq)|(_ & [_ Hne] & _)]; [exact Hq|contradiction].
  - intros parse Hspares.
    apply (Hsettled (head_published E b = true)); [auto|].
    now apply (part000_main_gated P E b raw Hfile Hparse Hnote).
  - apply advance_moves_head.
  - apply advance_keeps_tasks.
  - intros Hnd. eapply Permutation_NoDup; [apply advance_keeps_tasks|exact Hnd].
Qed.

(** The theorem at the sample run that applies one edit and publishes it:
    for [build-pipeline.js], for [part_000] with its own parser and for
    [part_000] with a parser that returns an edit. *)
Lemma queue_advance_gated_witness :
  let P := Sample.platform in
  let E := Sample.answering Sample.one_file_response [] in
  let raw := Sample.document in
  let b := Sample.backlog in
  let new := JSON_stringify P (advance b) in
  let settled (t : list action) :=
    let q := queue_after P (Some raw) t in
    (published E t = false -> q = Some raw) /\
    (published E t = true ->
     head_published E b = true /\
     match write_err E BACKLOG_JSON with
     | None => q = Some new
     | Some (_, None) => q = Some raw
     | Some (_, Some k) => q = Some (firstn k new)
     end) /\
    (head_published E b = false -> q = Some raw) /\
    (write_err E BACKLOG_JSON = None -> unchanged_or_advanced P raw b t) in
  (let r := BuildPipeline.main P E in
   settled (fst r) /\
   (edits_of_run E = [] -> queue_after P (Some raw) (fst r) = Some raw)) /\
  settled (fst (Part000.main_with (Part000.parseAIResponse 1) P E)) /\
  settled (fst (Part000.main_with one_edit_parser P E)).
Proof.
  destruct (queue_advance_gated Sample.platform
              (Sample.answering Sample.one_file_response [])
              Sample.document Sample.backlog)
    as (Hbuild & Hpart & _).
  - reflexivity.
  - reflexivity.
  - vm_compute. reflexivity.
  - reflexivity.
  - split; [|split].
    + apply Hbuild. vm_compute. repeat constructor.
    + apply (Hpart (Part000.parseAIResponse 1)).
      apply part000_parser_spares_queue.
    + apply (Hpart one_edit_parser).
      intros text edits [= <-]. repeat constructor.
Defined.

(** The sample run of the witness applies its edit and advances the queue. *)
Example sample_run_advances :
  let P := Sample.platform in
  let E := Sample.answering Sample.one_file_response [] in
  spare_queue P (edits_of_run E) /\
  snd (BuildPipeline.main P E) = Normal tt /\
  published E (fst (BuildPipeline.main P E)) = true /\
  queue_after P (Some Sample.document) (fst (BuildPipeline.main P E)) =
    Some (Sample.stringify (mkBacklog [Sample.T2] [Sample.T0; Sample.T1]
                              (phases Sample.backlog))).
Proof.
  cbn zeta. split; [vm_compute; repeat constructor|].
  conjuncts; vm_compute; reflexivity.
Qed.

(** So does the run of [part_000] when the parser called there returns an
    edit. *)
Example sample_run_advances_part000 :
  let P := Sample.platform in
  let E := Sample.answering Sample.one_file_response [] in
  let r := Part000.main_with one_edit_parser P E in
  snd r = Normal tt /\
  published E (fst r) = true /\
  queue_after P (Some Sample.document) (fst r) =
    Some (Sample.stringify (mkBacklog [Sample.T2] [Sample.T0; Sample.T1]
                              (phases Sample.backlog))).
Proof. cbn zeta. conjuncts; vm_compute; reflexivity. Qed.

(** As a consequence of the parser never returning an edit, a run of
    [part_000] as it is leaves the queue document unchanged. *)
Corollary part000_never_advances
  (P : Platform) (E : Env) (raw : jsstring) (fuel : nat) :
  queue_history P (Some raw) (fst (Part000.main fuel P E)) = [Some raw] /\
  queue_after P (Some raw) (fst (Part000.main fuel P E)) = Some raw.
Proof.
  pose proof (part000_main_harmless P E fuel) as H.
  assert (Hq : Forall (spares_queue P) (fst (Part000.main fuel P E))).
  { eapply Forall_impl; [apply harmless_spares_queue|exact H]. }
  split.
  - rewrite <- (app_nil_r (fst _)). now rewrite queue_history_spared.
  - now apply queue_after_spared.
Qed.

(** C8, counterexample.  In a run of [build-pipeline.js] that applies one edit
    and publishes it, the queue document is empty at the moment
    [fs.writeFileSync] has opened it and not yet written: at that moment it is
    neither the complete previous text nor the complete new one. *)
Lemma queue_write_is_torn :
  let E := Sample.answering Sample.one_file_response [] in
  let r := BuildPipeline.main Sample.platform E in
  nth_error (queue_history Sample.platform (Some Sample.document) (fst r)) 1
    = Some (Some []) /\
  ~ never_torn Sample.platform Sample.document Sample.backlog (fst r).
Proof.
  cbn zeta. split; [vm_compute; reflexivity|].
  unfold never_torn. intros H.
  assert (Hin : In (Some (@nil Z))
                  (queue_history Sample.platform (Some Sample.document)
                     (fst (BuildPipeline.main Sample.platform
                             (Sample.answering Sample.one_file_response [])))))
    by (vm_compute; auto).
  apply (proj1 (Forall_forall _ _) H) in Hin.
  destruct Hin as [Hin|Hin]; vm_compute in Hin; discriminate.
Qed.

(** C8, as amended.  [advance] persists the whole document with one
    [fs.writeFileSync] over the file, called only after a completed publish
    step.  In a run that starts from a well-formed queue document and writes
    nothing else through a path designating it, the document is the complete
    previous text up to that call.  During the call it is a prefix of the new
    text, starting from the empty one.  After a call that succeeds it is the
    complete new text; after a call that fails it is the previous text, when
    the file could not be opened, or else the prefix written so far.  This
    holds of [main] in [build-pipeline.js] and of [main] in [part_000],
    whatever the parser called there returns. *)
Theorem queue_write_in_place
  (P : Platform) (E : Env) (raw : jsstring) (b : Backlog) :
  is_backlog_path P BACKLOG_JSON = true ->
  backlog_file E = Some raw ->
  JSON_parse P raw = Some b ->
  note_spares_queue P E b ->
  let new := JSON_stringify P (advance b) in
  let in_place (t : list action) :=
    let h := queue_history P (Some raw) t in
    ((published E t = false /\ h = [Some raw]) \/
     (published E t = true /\ head_published E b = true /\
      match write_err E BACKLOG_JSON with
      | None => h = Some raw :: during_write new ++ [Some new]
      | Some (_, None) => h = [Some raw]
      | Some (_, Some k) =>
          h = Some raw :: during_write (firstn k new)
                ++ [Some (firstn k new)]
      end)) /\
    Forall (fun q => q = Some raw \/ exists k, q = Some (firstn k new)) h in
  (spare_queue P (edits_of_run E) ->
   in_place (fst (BuildPipeline.main P E))) /\
  (forall parse, parser_spares_queue P parse ->
   in_place (fst (Part000.main_with parse P E))).
Proof.
  intros Hpath Hfile Hparse Hnote. cbn zeta.
  set (new := JSON_stringify P (advance b)).
  assert (Hprefixes : forall d,
    (exists k, d = firstn k new) ->
    Forall (fun q => q = Some raw \/ exists k, q = Some (firstn k new))
           (Some raw :: during_write d ++ [Some d])).
  { intros d [k0 ->]. constructor; [now left|]. apply Forall_app. split.
    - unfold during_write. apply Forall_forall. intros x Hx.
      apply in_map_iff in Hx as (k & <- & _). right.
      exists (Nat.min k k0). now rewrite firstn_firstn.
    - constructor; [|constructor]. right. now exists k0. }
  assert (Hin_place : forall (G : Prop) (m : M unit),
    (G -> head_published E b = true) ->
    gated P E b G m ->
    ((published E (fst m) = false /\
      queue_history P (Some raw) (fst m) = [Some raw]) \/
     (published E (fst m) = true /\ head_published E b = true /\
      match write_err E BACKLOG_JSON with
      | None => queue_history P (Some raw) (fst m) =
                Some raw :: during_write new ++ [Some new]
      | Some (_, None) => queue_history P (Some raw) (fst m) = [Some raw]
      | Some (_, Some k) =>
          queue_history P (Some raw) (fst m) =
          Some raw :: during_write (firstn k new) ++ [Some (firstn k new)]
      end)) /\
    Forall (fun q => q = Some raw \/ exists k, q = Some (firstn k new))
           (queue_history P (Some raw) (fst m))).
  { intros G m HG Hg.
    pose proof (gated_outcome P E b raw Hpath G m Hg) as Hh. cbn zeta in Hh.
    fold new in Hh.
    destruct Hh as [(Hp & Hh & _)|(Hp & Hok & Hw)].
    - split; [left; auto|]. rewrite Hh. repeat constructor.
    - apply HG in Hok.
      destruct (write_err E BACKLOG_JSON) as [[e [k|]]|];
        destruct Hw as [Hh _]; (split; [right; auto|]); rewrite Hh.
      + apply Hprefixes. now exists k.
      + repeat constructor.
      + apply Hprefixes. exists (length new). now rewrite firstn_all. }
  split.
  - intros Hed.
    apply (Hin_place _ _ (@proj1 _ _)
             (build_pipeline_main_gated P E b raw Hfile Hparse Hnote Hed)).
  - intros parse Hspares.
    apply (Hin_place (head_published E b = true)); [auto|].
    now apply (part000_main_gated P E b raw Hfile Hparse Hnote).
Qed.

(** The theorem at the sample run that applies one edit and publishes it,
    for [build-pipeline.js] and for [part_000] with its own parser. *)
Lemma queue_write_in_place_witness :
  let P := Sample.platform in
  let E := Sample.answering Sample.one_file_response [] in
  let raw := Sample.document in
  let b := Sample.backlog in
  let new := JSON_stringify P (advance b) in
  let in_place (t : list action) :=
    let h := queue_history P (Some raw) t in
    ((published E t = false /\ h = [Some raw]) \/
     (published E t = true /\ head_published E b = true /\
      match write_err E BACKLOG_JSON with
      | None => h = Some raw :: during_write new ++ [Some new]
      | Some (_, None) => h = [Some raw]
      | Some (_, Some k) =>
          h = Some raw :: during_write (firstn k new)
                ++ [Some (firstn k new)]
      end)) /\
    Forall (fun q => q = Some raw \/ exists k, q = Some (firstn k new)) h in
  in_place (fst (BuildPipeline.main P E)) /\
  in_place (fst (Part000.main_with (Part000.parseAIResponse 1) P E)).
Proof.
  destruct (queue_write_in_place Sample.platform
              (Sample.answering Sample.one_file_response [])
              Sample.document Sample.backlog)
    as (Hbuild & Hpart).
  - reflexivity.
  - reflexivity.
  - vm_compute. reflexivity.
  - reflexivity.
  - split.
    + apply Hbuild. vm_compute. repeat constructor.
    + apply (Hpart (Part000.parseAIResponse 1)).
      apply part000_parser_spares_queue.
Defined.

(** The theorem's third case at a run: the write of the queue document fails
    after ten code units, and the history of the document ends with these ten
    code units. *)
Example failed_write_history :
  let P := Sample.platform in
  let E := torn_advance Sample.one_file_response 10 in
  let new := JSON_stringify P (advance Sample.backlog) in
  queue_history P (Some Sample.document) (fst (BuildPipeline.main P E)) =
    Some Sample.document :: during_write (firstn 10 new)
      ++ [Some (firstn 10 new)].
Proof. vm_compute. reflexivity. Qed.

(** * The run without edits *)

(** In [part_000], a run in which the parser returns the empty list ends
    normally, exit status 0, without having written a file, created a
    directory or run a command, and leaves the queue document as it was. *)
Theorem part000_noop (parse : jsstring -> option (list FileEdit))
  (P : Platform) (E : Env) (raw response : jsstring) (b : Backlog)
  (task : Task) (rest : list Task) (t : list action) :
  backlog_file E = Some raw ->
  JSON_parse P raw = Some b ->
  pending b = task :: rest ->
  Part000.callGeminiWithRetry E
    (mkPrompt task (lookup_phase (phase task) (phases b))
       (filter (fun f => negb (startsWith (js ".") f)) (listing E)))
    Part000.DEFAULT_RETRIES = (t, Normal (Some response)) ->
  parse response = Some [] ->
  let r := Part000.main_with parse P E in
  snd r = Normal tt /\
  exit_status (snd r) = Some 0%Z /\
  file_writes (fst r) = [] /\
  directories (fst r) = [] /\
  commands (fst r) = [] /\
  queue_after P (Some raw) (fst r) = Some raw.
Proof.
  intros Hfile Hparse Hb Hgen Hnil. cbn zeta.
  assert (Ht : Forall harmless t).
  { change t with (fst (t, @Normal (option jsstring) (Some response))).
    rewrite <- Hgen. apply retry_loop_harmless. }
  assert (Hr : Part000.main_with parse P E =
               (ReadFile BACKLOG_JSON :: ConsoleLog (LBuilding task)
                  :: ReadDir (js ".")
                  :: t ++ [ConsoleLog (LPreview (slice0 300 response));
                           ConsoleLog LNoBlocks],
                Normal tt)).
  { unfold Part000.main_with.
    rewrite (load_backlog_value P E b raw Hfile Hparse).
    cbn [bind]. rewrite Hb. unfold build_prompt, readdirSync, log, perform.
    cbn [bind ret app]. rewrite Hgen. cbn [bind]. rewrite Hnil.
    cbn [try_catch app]. reflexivity. }
  rewrite Hr. cbn [fst snd].
  assert (Hall : Forall harmless
            (ReadFile BACKLOG_JSON :: ConsoleLog (LBuilding task)
               :: ReadDir (js ".")
               :: t ++ [ConsoleLog (LPreview (slice0 300 response));
                        ConsoleLog LNoBlocks])).
  { repeat (constructor; [exact I|]). apply Forall_app. split; [exact Ht|].
    repeat constructor. }
  destruct (harmless_trace _ Hall) as (Hw & Hc & Hd).
  repeat split; auto.
  apply queue_after_spared.
  eapply Forall_impl; [apply harmless_spares_queue|exact Hall].
Qed.

Example part000_noop_example :
  let E := Sample.answering (js "no delimiters here") [] in
  let r := Part000.main 1 Sample.platform E in
  snd r = Normal tt /\
  exit_status (snd r) = Some 0%Z /\
  file_writes (fst r) = [] /\
  directories (fst r) = [] /\
  commands (fst r) = [] /\
  queue_after Sample.platform (Some Sample.document) (fst r) =
    Some Sample.document.
Proof.
  eapply (part000_noop (Part000.parseAIResponse 1) Sample.platform
            (Sample.answering (js "no delimiters here") [])
            Sample.document (js "no delimiters here") Sample.backlog
            Sample.T1 [Sample.T2]).
  - reflexivity.
  - vm_compute. reflexivity.
  - reflexivity.
  - vm_compute. reflexivity.
  - vm_compute. reflexivity.
Defined.

(** C9.  A run whose parser returns no edit should write no file.  In
    [build-pipeline.js], on the answer [no delimiters here], the parser
    returns the empty list and the run ends normally without running a
    command and with the queue document unchanged, but it has created the
    directory [docs/progress] and written the progress note of the head
    task. *)
Theorem build_pipeline_noop_writes_note :
  let E := Sample.answering (js "no delimiters here") [] in
  let r := BuildPipeline.main Sample.platform E in
  BuildPipeline.parseAIResponse (js "no delimiters here") = [] /\
  snd r = Normal tt /\
  exit_status (snd r) = Some 0%Z /\
  commands (fst r) = [] /\
  queue_after Sample.platform (Some Sample.document) (fst r) =
    Some Sample.document /\
  directories (fst r) = [js "docs/progress"] /\
  file_writes (fst r) =
    [(js "docs/progress/2024-01-01-1.md",
      js "# Task 1" ++ [LF] ++ js "Django app" ++ [LF; LF] ++
      js "no delimiters here")].
Proof. cbn zeta. repeat split; vm_compute; reflexivity. Qed.

(** * Further properties of the regular expression *)

Section MatchShape.

Import Regex.

Lemma startsWith_split p : forall s,
  startsWith p s = true -> exists rest, s = p ++ rest.
Proof.
  induction p as [|c p IH]; intros s H.
  - now exists s.
  - destruct s as [|d s]; [discriminate|]. simpl in H.
    apply andb_true_iff in H as [Hc Hp]. apply Z.eqb_eq in Hc. subst d.
    destruct (IH s Hp) as [rest ->]. now exists rest.
Qed.





Variable text : jsstring.


Lemma search_range i more m :
  search text i more = Some m ->
  (i <= index m <= i + more)%nat /\
  forall j, (i <= j < index m)%nat -> match_at text j = None.
Proof.
  revert i. induction more as [|more IH]; intros i; simpl;
    destruct (match_at text i) eqn:Hi; try discriminate.
  - intros [= <-]. rewrite (match_at_index _ _ _ Hi). split; [lia|].
    intros j Hj. lia.
  - intros [= <-]. rewrite (match_at_index _ _ _ Hi). split; [lia|].
    intros j Hj. lia.
  - intros H. destruct (IH _ H) as [Hr Hnone]. split; [lia|].
    intros j Hj. destruct (Nat.eq_dec j i) as [->|Hne]; [exact Hi|].
    apply Hnone. lia.
Qed.

Lemma search_none i more :
  search text i more = None ->
  forall j, (i <= j <= i + more)%nat -> match_at text j = None.
Proof.
  revert i. induction more as [|more IH]; intros i; simpl;
    destruct (match_at text i) eqn:Hi; try discriminate; intros H j Hj.
  - now replace j with i by lia.
  - destruct (Nat.eq_dec j i) as [->|Hne]; [exact Hi|].
    apply (IH _ H). lia.
Qed.

Lemma match_at_beyond j :
  (length text < j + 3)%nat -> match_at text j = None.
Proof.
  intros Hj. destruct (match_at text j) eqn:H; [|reflexivity].
  apply match_at_in_text in H. lia.
Qed.

End MatchShape.



(** X2.  [exec] finds the leftmost match at or after [lastIndex]: the pattern
    matches at no index before the one it returns, and when it returns
    [null] the pattern matches at no index from [lastIndex] on and
    [lastIndex] is reset to 0. *)
Theorem exec_leftmost (text : jsstring) (lastIndex : nat) :
  match Regex.exec text lastIndex with
  | (Some m, _) =>
      Regex.match_at text (Regex.index m) = Some m /\
      forall j, (lastIndex <= j < Regex.index m)%nat ->
                Regex.match_at text j = None
  | (None, lastIndex') =>
      lastIndex' = O /\
      forall j, (lastIndex <= j)%nat -> Regex.match_at text j = None
  end.
Proof.
  unfold Regex.exec.
  destruct (Nat.ltb_spec (length text) lastIndex) as [Hlt|Hle].
  - split; [reflexivity|]. intros j Hj. apply match_at_beyond. lia.
  - destruct (Regex.search text lastIndex (length text - lastIndex))
      as [m|] eqn:Hs.
    + split; [eapply search_finds, Hs|]. now apply search_range in Hs.
    + split; [reflexivity|]. intros j Hj.
      destruct (Nat.le_gt_cases j (length text)) as [Hin|Hout].
      * apply (search_none _ _ _ Hs). lia.
      * apply match_at_beyond. lia.
Qed.

(** * Further properties of the regex-based parser *)

Lemma startsWith_includes p : forall s j,
  startsWith p (skipn j s) = true -> includes p s = true.
Proof.
  induction s as [|c s IH]; intros j H.
  - rewrite skipn_nil in H. destruct p; [reflexivity|discriminate].
  - destruct j as [|j].
    + cbn [skipn] in H. cbn [includes]. now rewrite H.
    + cbn [skipn] in H. cbn [includes]. rewrite (IH j H).
      apply orb_true_r.
Qed.

Lemma push_if_file_extends changes fname body :
  initial_segment changes (Part000.push_if_file changes fname body).
Proof.
  unfold Part000.push_if_file. destruct (_ && _).
  - now exists [mkEdit fname body].
  - exists []. now rewrite app_nil_r.
Qed.

Lemma initial_segment_trans {A} (l1 l2 l3 : list A) :
  initial_segment l1 l2 -> initial_segment l2 l3 -> initial_segment l1 l3.
Proof.
  intros [r1 ->] [r2 ->]. exists (r1 ++ r2). now rewrite app_assoc.
Qed.

Lemma loop_iter_extends text lastIndex changes :
  initial_segment changes
    (Part000.changes_of (Part000.loop_iter text lastIndex changes)).
Proof.
  unfold Part000.loop_iter.
  destruct (Regex.exec text lastIndex) as [[m1|] l1]; simpl.
  - destruct (Regex.exec text l1) as [[m2|] l2]; simpl;
      apply push_if_file_extends.
  - exists []. now rewrite app_nil_r.
Qed.

Lemma loop_extends n : forall text lastIndex changes,
  initial_segment changes
    (Part000.changes_of (Part000.loop n text lastIndex changes)).
Proof.
  induction n as [|n IH]; intros text lastIndex changes; simpl.
  - exists []. now rewrite app_nil_r.
  - pose proof (loop_iter_extends text lastIndex changes) as Hi.
    destruct (Part000.loop_iter text lastIndex changes) as [l c|r];
      simpl in *; [|exact Hi].
    eapply initial_segment_trans; [exact Hi|apply IH].
Qed.

Lemma loop_add n : forall m text lastIndex changes,
  Part000.loop (n + m) text lastIndex changes =
  match Part000.loop n text lastIndex changes with
  | Part000.Continue l c => Part000.loop m text l c
  | Part000.Return r => Part000.Return r
  end.
Proof.
  induction n as [|n IH]; intros m text lastIndex changes; simpl;
    [reflexivity|].
  destruct (Part000.loop_iter text lastIndex changes) as [l c|r];
    [apply IH|reflexivity].
Qed.

(** X3.  Whether the regex-based parser returns is decided by the first [exec]:
    when it finds no delimiter the function returns the empty list at once,
    when it finds one the function returns for no number of iterations. *)
Theorem regex_parser_returns_iff_no_delimiter (text : jsstring) :
  match fst (Regex.exec text 0) with
  | None => forall fuel, Part000.parseAIResponse (S fuel) text = Some []
  | Some _ => forall fuel, Part000.parseAIResponse fuel text = None
  end.
Proof.
  destruct (fst (Regex.exec text 0)) as [m|] eqn:H.
  - intros fuel. apply parseAIResponse_no_return. now exists m.
  - intros fuel. now apply parseAIResponse_no_delimiter.
Qed.

(** X4.  On a text in which [===] does not occur the regex-based parser returns
    the empty list. *)
Theorem regex_parser_without_marker (text : jsstring) (fuel : nat) :
  includes (js "===") text = false ->
  Part000.parseAIResponse (S fuel) text = Some [].
Proof.
  intros Hno. apply parseAIResponse_no_delimiter.
  destruct (fst (Regex.exec text 0)) as [m|] eqn:H; [|reflexivity].
  apply exec_finds in H. rename H into Hm. exfalso.
  unfold Regex.match_at in Hm.
  destruct (Regex.at_line_start text (Regex.index m)); cbn [andb] in Hm;
    [|discriminate].
  destruct (startsWith (js "===") (skipn (Regex.index m) text)) eqn:Hs;
    [|discriminate].
  apply startsWith_includes in Hs. congruence.
Qed.

Lemma regex_parser_without_marker_witness :
  Part000.parseAIResponse 1 (js "plain == text") = Some [].
Proof.
  apply (regex_parser_without_marker (js "plain == text") 0).
  reflexivity.
Defined.

(** X5.  The loop of the regex-based parser only ever appends to [changes]: the
    list after [n] iterations is an initial segment of the list after
    [n + m] iterations. *)
Theorem regex_parser_only_appends
  (text : jsstring) (n m lastIndex : nat) (changes : list FileEdit) :
  initial_segment
    (Part000.changes_of (Part000.loop n text lastIndex changes))
    (Part000.changes_of (Part000.loop (n + m) text lastIndex changes)).
Proof.
  rewrite loop_add.
  destruct (Part000.loop n text lastIndex changes) as [l c|r]; simpl.
  - apply loop_extends.
  - exists []. now rewrite app_nil_r.
Qed.

(** * Further properties of [split], [join] and the split-based parser *)

Section SplitJoin.

Variable q : Z -> bool.

Lemma forallb_rev_keeps (s : jsstring) :
  forallb q s = true -> forallb q (rev s) = true.
Proof.
  intros H. apply forallb_forall. intros c Hc. apply in_rev in Hc.
  revert c Hc. now apply forallb_forall.
Qed.

Lemma trimStart_keeps (s : jsstring) :
  forallb q s = true -> forallb q (trimStart s) = true.
Proof.
  induction s as [|c s IH]; simpl; [auto|]. intros H.
  apply andb_true_iff in H as [Hc Hs].
  destruct (is_space c); [auto|]. simpl. now rewrite Hc, Hs.
Qed.

Lemma trim_keeps (s : jsstring) :
  forallb q s = true -> forallb q (trim s) = true.
Proof.
  intros H. unfold trim, trimEnd.
  now apply forallb_rev_keeps, trimStart_keeps, forallb_rev_keeps,
    trimStart_keeps.
Qed.

(** The pieces are made of code units of the text. *)
Lemma split_go_keeps sep : forall s skip cur,
  forallb q s = true -> forallb q cur = true ->
  Forall (fun piece => forallb q piece = true) (split_go sep skip cur s).
Proof.
  induction s as [|c s IH]; intros skip cur Hs Hcur; simpl.
  - constructor; [now apply forallb_rev_keeps|constructor].
  - simpl in Hs. apply andb_true_iff in Hs as [Hc Hs].
    destruct skip as [|k]; [|now apply IH].
    destruct (startsWith sep (c :: s)).
    + constructor; [now apply forallb_rev_keeps|now apply IH].
    + apply IH; [exact Hs|]. simpl. now rewrite Hc, Hcur.
Qed.

End SplitJoin.

Lemma split_go_not_nil sep : forall s skip cur, split_go sep skip cur s <> [].
Proof.
  induction s as [|c s IH]; intros skip cur; simpl; [discriminate|].
  destruct skip; [|apply IH].
  destruct (startsWith sep (c :: s)); [discriminate|apply IH].
Qed.

Lemma join_cons sep p ps :
  ps <> [] -> join sep (p :: ps) = p ++ sep ++ join sep ps.
Proof. destruct ps; [contradiction|reflexivity]. Qed.

Lemma split_go_join sep : sep <> [] -> forall s skip cur,
  join sep (split_go sep skip cur s) = rev cur ++ skipn skip s.
Proof.
  intros Hsep. induction s as [|c s IH]; intros skip cur.
  - simpl. now rewrite skipn_nil, app_nil_r.
  - cbn [split_go]. destruct skip as [|k]; [|apply IH].
    destruct (startsWith sep (c :: s)) eqn:Hs.
    + rewrite join_cons by apply split_go_not_nil.
      rewrite IH. cbn [rev app skipn].
      apply startsWith_split in Hs as [rest Hrest].
      destruct sep as [|c0 sep']; [contradiction|].
      injection Hrest as <- ->.
      cbn [length]. rewrite Nat.sub_succ, Nat.sub_0_r.
      rewrite skipn_app, Nat.sub_diag, skipn_all. reflexivity.
    + rewrite IH. cbn [rev skipn]. now rewrite <- app_assoc.
Qed.

(** [s.split(sep).join(sep)] is [s] again, for every non-empty separator. *)
Lemma split_join (sep s : jsstring) :
  sep <> [] -> join sep (split sep s) = s.
Proof. intros Hsep. unfold split. now rewrite split_go_join. Qed.

Lemma split_lines_one cur : forall s,
  no_line_feed s -> split_go [LF] 0 cur s = [rev cur ++ s].
Proof.
  unfold no_line_feed. intros s. revert cur.
  induction s as [|c s IH]; intros cur H.
  - simpl. now rewrite app_nil_r.
  - cbn [forallb] in H. apply andb_true_iff in H as [Hc Hs].
    apply negb_true_iff in Hc. rewrite Z.eqb_sym in Hc.
    cbn [split_go startsWith]. rewrite Hc. cbn [andb].
    rewrite IH by exact Hs. cbn [rev]. now rewrite <- app_assoc.
Qed.

Lemma split_lines_no_line_feed : forall s cur,
  no_line_feed cur -> Forall no_line_feed (split_go [LF] 0 cur s).
Proof.
  unfold no_line_feed.
  induction s as [|c s IH]; intros cur Hcur.
  - constructor; [now apply forallb_rev_keeps|constructor].
  - cbn [split_go startsWith].
    destruct (LF =? c)%Z eqn:Hc; cbn [andb length Nat.sub].
    + constructor; [now apply forallb_rev_keeps|now apply IH].
    + apply IH. cbn [forallb]. rewrite Z.eqb_sym, Hc. exact Hcur.
Qed.

Lemma parse_part_one_line part :
  no_line_feed part -> BuildPipeline.parse_part part = None.
Proof.
  intros H. unfold BuildPipeline.parse_part.
  destruct (negb (truthy (trim part))); [reflexivity|].
  unfold split. rewrite split_lines_one by now apply trim_keeps.
  reflexivity.
Qed.

(** X6.  The split-based parser returns no edit on a text without line feed. *)
Theorem split_parser_needs_line_feed (text : jsstring) :
  no_line_feed text -> BuildPipeline.parseAIResponse text = [].
Proof.
  intros H. unfold BuildPipeline.parseAIResponse, split.
  pose proof (split_go_keeps _ (js "===") text 0 [] H eq_refl) as Hparts.
  induction Hparts as [|part parts Hpart _ IH]; [reflexivity|].
  simpl. now rewrite (parse_part_one_line part Hpart).
Qed.

Lemma split_parser_needs_line_feed_witness :
  BuildPipeline.parseAIResponse (js "=== a.txt === hello === END ===") = [].
Proof.
  apply (split_parser_needs_line_feed (js "=== a.txt === hello === END ===")).
  reflexivity.
Defined.

Lemma parse_part_reads_first_line part e :
  BuildPipeline.parse_part part = Some e ->
  exists first rest,
    trim part = first ++ [LF] ++ rest /\ no_line_feed first /\
    filename e = trim first /\ content e = trim rest.
Proof.
  unfold BuildPipeline.parse_part.
  destruct (negb (truthy (trim part))); [discriminate|].
  assert (Hjoin : [LF] <> [] -> join [LF] (split [LF] (trim part)) = trim part)
    by (intros Hsep; unfold split; now rewrite split_go_join).
  pose proof (split_lines_no_line_feed (trim part) [] eq_refl) as Hlines.
  fold (split [LF] (trim part)) in Hlines.
  destruct (split [LF] (trim part)) as [|first [|second more]];
    try discriminate.
  cbn [length Nat.ltb Nat.leb hd tl].
  destruct (negb (includes [PERIOD] (trim first))); [discriminate|].
  destruct (truthy (trim first) && truthy (trim (join [LF] (second :: more))));
    [|discriminate].
  intros [= <-]. exists first, (join [LF] (second :: more)).
  conjuncts; try reflexivity.
  - symmetry. apply Hjoin. discriminate.
  - now inversion Hlines.
Qed.

(** X7.  Every edit the split-based parser returns comes from one piece of
    [text.split('===')]: its filename is the trimmed first line of the
    trimmed piece, its content is the trimmed remainder after the first
    line feed. *)
Theorem split_parser_reads_first_line (text : jsstring) :
  Forall
    (fun e =>
       exists part first rest,
         In part (split (js "===") text) /\
         trim part = first ++ [LF] ++ rest /\ no_line_feed first /\
         filename e = trim first /\ content e = trim rest)
    (BuildPipeline.parseAIResponse text).
Proof.
  unfold BuildPipeline.parseAIResponse.
  induction (split (js "===") text) as [|part parts IH]; [constructor|].
  simpl. destruct (BuildPipeline.parse_part part) as [e|] eqn:Hp.
  - constructor.
    + apply parse_part_reads_first_line in Hp
        as (first & rest & H1 & H2 & H3 & H4).
      exists part, first, rest. auto.
    + eapply Forall_impl; [|exact IH].
      intros e' (p' & f & r & Hin & H). exists p', f, r. auto.
  - eapply Forall_impl; [|exact IH].
    intros e' (p' & f & r & Hin & H). exists p', f, r. auto.
Qed.

(** * Further properties of the retry loop *)

(** X8.  Whatever the service answers, [callGeminiWithRetry] calls it at most
    [retries] times and ends by returning or by throwing.  With an empty
    budget it does nothing.  Otherwise it makes a number of attempts below
    the budget, each followed by its console line and by one wait, and then
    one last attempt: it waits exactly once between two consecutive calls and
    never after the last one. *)
Theorem callGeminiWithRetry_bounded (E : Env) (prompt : Prompt)
  (retries : nat) :
  let r := Part000.callGeminiWithRetry E prompt retries in
  (attempts (fst r) <= retries)%nat /\
  length (delays (fst r)) = (attempts (fst r) - 1)%nat /\
  (forall code, snd r <> Exit code) /\ snd r <> Diverges /\
  ((retries = 0%nat /\ fst r = []) \/
   (exists a, (a < retries)%nat /\ fst r = retry_trace prompt retries 0 a)).
Proof.
  destruct retries as [|n] eqn:Hn.
  - cbn. conjuncts; auto; discriminate.
  - rewrite <- Hn.
    destruct (callGeminiWithRetry_trace E prompt retries)
      as (a & Ha & Ht & _ & Hc); [lia|].
    cbn zeta. rewrite Ht, attempts_retry_trace, delays_retry_trace.
    rewrite length_map, length_seq.
    conjuncts; try lia.
    + intros code H. rewrite H in Hc. exact Hc.
    + intros H. rewrite H in Hc. exact Hc.
    + right. now exists a.
Qed.

(** X9.  With a budget of at least one attempt, [callGeminiWithRetry] ends with
    the outcome of the last call it made: it returns the text of that call
    or throws the error of that call, and never returns [undefined]. *)
Theorem callGeminiWithRetry_last_outcome (E : Env) (prompt : Prompt)
  (retries : nat) :
  (1 <= retries)%nat ->
  let r := Part000.callGeminiWithRetry E prompt retries in
  let last_call := (attempts (fst r) - 1)%nat in
  (1 <= attempts (fst r))%nat /\
  match snd r with
  | Normal (Some text) => gen E last_call = GenOk text
  | Thrown e => gen E last_call = GenErr e
  | _ => False
  end.
Proof.
  intros Hr.
  destruct (callGeminiWithRetry_trace E prompt retries Hr)
    as (a & Ha & Ht & _ & Hc).
  cbn zeta. rewrite Ht, attempts_retry_trace.
  replace (S a - 1)%nat with a by lia. split; [lia|].
  destruct (snd (Part000.callGeminiWithRetry E prompt retries))
    as [[text|]|e| |]; try contradiction; [exact Hc|apply Hc].
Qed.

Lemma callGeminiWithRetry_last_outcome_witness :
  let r := Part000.callGeminiWithRetry Sample.fails_second Sample.no_prompt 3 in
  let last_call := (attempts (fst r) - 1)%nat in
  (1 <= attempts (fst r))%nat /\
  match snd r with
  | Normal (Some text) => gen Sample.fails_second last_call = GenOk text
  | Thrown e => gen Sample.fails_second last_call = GenErr e
  | _ => False
  end.
Proof.
  apply (callGeminiWithRetry_last_outcome Sample.fails_second
           Sample.no_prompt 3).
  lia.
Defined.





(** * Further properties of [main] *)

Lemma bind_normal {A B} (m : M A) (k : A -> M B) t a :
  m = (t, Normal a) -> bind m k = (t ++ fst (k a), snd (k a)).
Proof. intros ->. simpl. now destruct (k a). Qed.

Lemma file_writes_app t1 t2 :
  file_writes (t1 ++ t2) = file_writes t1 ++ file_writes t2.
Proof.
  induction t1 as [|a t1 IH]; [reflexivity|].
  destruct a; simpl; now rewrite ?IH.
Qed.

Lemma commands_app t1 t2 : commands (t1 ++ t2) = commands t1 ++ commands t2.
Proof.
  induction t1 as [|a t1 IH]; [reflexivity|].
  destruct a; simpl; now rewrite ?IH.
Qed.

Section Endings.

Variable allowed : ending -> Prop.

Lemma ends_bind {A B} (m : M A) (k : A -> M B) :
  ends allowed m -> (forall a, ends allowed (k a)) -> ends allowed (bind m k).
Proof.
  unfold ends. destruct m as [t [a|e|n|]]; simpl; intros Hm Hk; auto.
  specialize (Hk a). now destruct (k a).
Qed.

Lemma ends_try_catch {A} (m : M A) (h : jsstring -> M A) :
  ends allowed m -> (forall e, ends allowed (h e)) ->
  ends allowed (try_catch m h).
Proof.
  unfold ends. destruct m as [t [a|e|n|]]; simpl; intros Hm Hh; auto.
  specialize (Hh e). now destruct (h e).
Qed.

End Endings.

Lemma returns_or_throws_try_block hangs {A} (m : M A) :
  ends returns_or_throws m -> ends (try_block_ending hangs) m.
Proof. unfold ends, returns_or_throws, try_block_ending. tauto. Qed.

Section StepEndings.

Variable P : Platform.
Variable E : Env.

Lemma mkdirSync_ends path : ends returns_or_throws (mkdirSync E path).
Proof.
  unfold mkdirSync, ends, returns_or_throws.
  destruct (mkdir_err E path); simpl; auto.
Qed.

Lemma writeFileSync_ends path data :
  ends returns_or_throws (writeFileSync E path data).
Proof.
  unfold writeFileSync, ends, returns_or_throws.
  destruct (write_err E path) as [[e [k|]]|]; simpl; auto.
Qed.

Lemma execSync_ends cmd : ends returns_or_throws (execSync E cmd).
Proof.
  unfold execSync, ends, returns_or_throws.
  destruct (exec_err E cmd); simpl; auto.
Qed.

Lemma log_ends l : ends returns_or_throws (log l).
Proof. left. reflexivity. Qed.

Lemma ret_ends {A} (a : A) : ends returns_or_throws (ret a).
Proof. left. reflexivity. Qed.

Lemma throw_ends {A} e : ends returns_or_throws (@throw A e).
Proof. right. reflexivity. Qed.

Lemma load_backlog_ends : ends returns_or_throws (load_backlog P E).
Proof.
  unfold load_backlog. apply ends_bind.
  - unfold readFileSync, ends, returns_or_throws.
    destruct (backlog_file E); simpl; auto.
  - intros raw. destruct (JSON_parse P raw); [apply ret_ends|apply throw_ends].
Qed.

Lemma build_prompt_ends b task :
  ends returns_or_throws (build_prompt E b task).
Proof.
  unfold build_prompt. apply ends_bind; [left; reflexivity|].
  intros all. apply ret_ends.
Qed.

Lemma generateContent_ends n p :
  ends returns_or_throws (generateContent E n p).
Proof.
  unfold generateContent, ends, returns_or_throws.
  destruct (gen E n); simpl; auto.
Qed.


Lemma apply_changes_ends changes : forall has,
  ends returns_or_throws (apply_changes P E changes has).
Proof.
  induction changes as [|c rest IH]; intros has; simpl; [apply ret_ends|].
  apply ends_bind; [|intros _; apply IH].
  unfold apply_change. apply ends_bind.
  { destruct (_ && _); [apply mkdirSync_ends|apply ret_ends]. }
  intros _. apply ends_bind; [apply writeFileSync_ends|].
  intros _. apply log_ends.
Qed.

Lemma apply_and_publish_ends b task response changes :
  ends returns_or_throws (apply_and_publish P E b task response changes).
Proof.
  unfold apply_and_publish.
  apply ends_bind; [apply apply_changes_ends|]. intros has.
  apply ends_bind.
  { unfold write_note. apply ends_bind; [apply mkdirSync_ends|].
    intros _. apply writeFileSync_ends. }
  intros _. destruct has; [|apply log_ends].
  apply ends_bind.
  { unfold validate.
    apply ends_bind; [apply log_ends|]. intros _.
    apply ends_bind.
    { apply ends_try_catch; [apply execSync_ends|intros e; apply log_ends]. }
    intros _. apply ends_bind.
    { apply ends_try_catch; [apply execSync_ends|intros e; apply log_ends]. }
    intros _. apply log_ends. }
  intros _. apply ends_bind.
  { unfold publish.
    repeat (apply ends_bind; [apply execSync_ends|intros _]).
    apply execSync_ends. }
  intros _. unfold persist_advance.
  apply ends_bind; [apply writeFileSync_ends|]. intros _. apply log_ends.
Qed.

(** What [catch (error) {...}] makes of the [try] block. *)
Lemma caught_ending hangs (body : M unit) :
  ends (try_block_ending hangs) body ->
  let r := try_catch body on_error in
  snd r = Normal tt \/ snd r = Exit 0%Z \/
  (snd r = Exit 1%Z /\
   exists msg, last (fst r) (ConsoleLog LAllDone) = ConsoleError msg) \/
  (hangs /\ snd r = Diverges).
Proof.
  unfold ends, try_block_ending.
  destruct body as [t [[]|e|n|]]; simpl; intros H.
  - now left.
  - right. right. left. split; [reflexivity|]. exists e. apply last_last.
  - destruct H as [H|[H|[H|[_ H]]]]; try discriminate.
    injection H as ->. right. now left.
  - destruct H as [H|[H|[H|[Hh _]]]]; try discriminate.
    right. right. right. now split.
Qed.

End StepEndings.

(** X12.  [main] of [build-pipeline.js] lets no error escape and does not hang: it
    ends normally, or by [process.exit(0)], or by [process.exit(1)] right
    after printing the error on the console. *)
Theorem build_pipeline_main_ending (P : Platform) (E : Env) :
  let r := BuildPipeline.main P E in
  snd r = Normal tt \/ snd r = Exit 0%Z \/
  (snd r = Exit 1%Z /\
   exists msg, last (fst r) (ConsoleLog LAllDone) = ConsoleError msg).
Proof.
  assert (H : ends (try_block_ending False)
    (backlog <- load_backlog P E ;;
     match pending backlog with
     | [] => log LAllDone ;; exit 0%Z
     | task :: _ =>
         log (LBuilding task) ;;
         prompt <- build_prompt E backlog task ;;
         response <- generateContent E 0 prompt ;;
         log (LPreview (slice0 300 response)) ;;
         apply_and_publish P E backlog task response
           (BuildPipeline.parseAIResponse response)
     end)).
  { apply ends_bind;
      [apply returns_or_throws_try_block, load_backlog_ends|].
    intros b. destruct (pending b) as [|task rest].
    - right. right. left. reflexivity.
    - apply returns_or_throws_try_block.
      apply ends_bind; [apply log_ends|]. intros _.
      apply ends_bind; [apply build_prompt_ends|]. intros prompt.
      apply ends_bind; [apply generateContent_ends|]. intros response.
      apply ends_bind; [apply log_ends|]. intros _.
      apply apply_and_publish_ends. }
  apply caught_ending in H. cbn zeta in *.
  destruct H as [H|[H|[H|[H _]]]]; auto. contradiction.
Qed.


(** X14.  With an empty [pending] list both versions of [main] print one line and
    exit with status 0 right after reading the queue document: the service
    is not called and nothing is written. *)
Theorem empty_queue_exits
  (parse : jsstring -> option (list FileEdit)) (P : Platform) (E : Env)
  (raw : jsstring) (b : Backlog) :
  backlog_file E = Some raw ->
  JSON_parse P raw = Some b ->
  pending b = [] ->
  BuildPipeline.main P E =
    ([ReadFile BACKLOG_JSON; ConsoleLog LAllDone], Exit 0%Z) /\
  Part000.main_with parse P E =
    ([ReadFile BACKLOG_JSON; ConsoleLog LAllDone], Exit 0%Z).
Proof.
  intros Hfile Hparse Hb.
  unfold BuildPipeline.main, Part000.main_with.
  rewrite (load_backlog_value P E b raw Hfile Hparse).
  cbn [bind]. rewrite Hb. split; reflexivity.
Qed.

Lemma empty_queue_exits_witness :
  let P := reading (mkBacklog [] [Sample.T0] []) in
  let E := Sample.answering (js "unused") [] in
  BuildPipeline.main P E =
    ([ReadFile BACKLOG_JSON; ConsoleLog LAllDone], Exit 0%Z) /\
  Part000.main_with (Part000.parseAIResponse 1) P E =
    ([ReadFile BACKLOG_JSON; ConsoleLog LAllDone], Exit 0%Z).
Proof.
  apply (empty_queue_exits (Part000.parseAIResponse 1)
           (reading (mkBacklog [] [Sample.T0] []))
           (Sample.answering (js "unused") [])
           Sample.document (mkBacklog [] [Sample.T0] [])); reflexivity.
Defined.

(** X15.  When the file [backlog.json] is missing, so that [fs.readFileSync]
    throws, or does not hold valid JSON, so that [JSON.parse] throws, both
    versions of [main] print the error and exit with status 1 without
    calling the service, writing a file, creating a directory or running a
    command. *)
Theorem unreadable_queue_exits
  (parse : jsstring -> option (list FileEdit)) (P : Platform) (E : Env) :
  match backlog_file E with
  | None => True
  | Some raw => JSON_parse P raw = None
  end ->
  (exists msg,
     BuildPipeline.main P E = ([ConsoleError msg], Exit 1%Z) \/
     BuildPipeline.main P E =
       ([ReadFile BACKLOG_JSON; ConsoleError msg], Exit 1%Z)) /\
  Part000.main_with parse P E = BuildPipeline.main P E.
Proof.
  intros H. unfold BuildPipeline.main, Part000.main_with, load_backlog,
    readFileSync.
  destruct (backlog_file E) as [raw|].
  - cbn [bind]. rewrite H. split; [|reflexivity].
    eexists. right. reflexivity.
  - split; [|reflexivity]. eexists. left. reflexivity.
Qed.

(** The theorem at a run without the file and at a run whose file does not
    hold valid JSON. *)
Lemma unreadable_queue_exits_witness :
  ((exists msg,
      BuildPipeline.main Sample.platform Sample.always_429 =
        ([ConsoleError msg], Exit 1%Z) \/
      BuildPipeline.main Sample.platform Sample.always_429 =
        ([ReadFile BACKLOG_JSON; ConsoleError msg], Exit 1%Z)) /\
   Part000.main_with (Part000.parseAIResponse 1) Sample.platform
     Sample.always_429 =
   BuildPipeline.main Sample.platform Sample.always_429) /\
  ((exists msg,
      BuildPipeline.main Sample.platform invalid_queue =
        ([ConsoleError msg], Exit 1%Z) \/
      BuildPipeline.main Sample.platform invalid_queue =
        ([ReadFile BACKLOG_JSON; ConsoleError msg], Exit 1%Z)) /\
   Part000.main_with (Part000.parseAIResponse 1) Sample.platform
     invalid_queue =
   BuildPipeline.main Sample.platform invalid_queue).
Proof.
  split.
  - apply (unreadable_queue_exits (Part000.parseAIResponse 1) Sample.platform
             Sample.always_429).
    exact I.
  - apply (unreadable_queue_exits (Part000.parseAIResponse 1) Sample.platform
             invalid_queue).
    vm_compute. reflexivity.
Defined.

(** X16.  Validation never blocks: whether the two check commands fail or not,
    [validate] runs both, in the order of the source, and ends normally. *)
Theorem validate_never_blocks (E : Env) :
  snd (validate E) = Normal tt /\
  commands (fst (validate E)) = [CMD_CHECK; CMD_BUILD] /\
  file_writes (fst (validate E)) = [].
Proof.
  unfold validate, execSync, log, perform.
  destruct (exec_err E CMD_CHECK), (exec_err E CMD_BUILD); simpl;
    conjuncts; reflexivity.
Qed.

(** X17.  The publish step runs its five commands in the order of the source and
    stops at the first one that fails, throwing its error: the commands it
    has run are an initial segment of the five, all of them when it ends
    normally; [git push] is run only after [git commit] has succeeded. *)
Theorem publish_stops_at_first_failure (E : Env) (task : Task) :
  let r := publish E task in
  initial_segment (commands (fst r)) (publish_commands task) /\
  file_writes (fst r) = [] /\
  match snd r with
  | Normal _ =>
      commands (fst r) = publish_commands task /\ publish_ok E task = true
  | Thrown e =>
      exec_err E (last (commands (fst r)) []) = Some e /\
      Forall (fun c => exec_err E c = None) (removelast (commands (fst r))) /\
      publish_ok E task = false
  | _ => False
  end.
Proof.
  unfold publish, publish_ok, publish_commands, execSync, perform.
  destruct (exec_err E CMD_USER_NAME) eqn:H1;
    [|destruct (exec_err E CMD_USER_EMAIL) eqn:H2;
      [|destruct (exec_err E CMD_ADD) eqn:H3;
        [|destruct (exec_err E (cmd_commit task)) eqn:H4;
          [|destruct (exec_err E CMD_PUSH) eqn:H5]]]];
    simpl; conjuncts;
    solve [ reflexivity | assumption
          | eexists; reflexivity
          | repeat (constructor; [assumption|]); constructor ].
Qed.

Section ApplyChanges.

Variable P : Platform.
Variable E : Env.



End ApplyChanges.


Lemma apply_changes_complete P E changes :
  fs_ok E ->
  exists t, apply_changes P E changes false =
              (t, Normal (0 <? length changes)%nat) /\
            file_writes t = writes_of changes /\ commands t = [] /\
            attempts t = 0%nat.
Proof.
  intros Hfs.
  assert (H : forall l has, exists t,
            apply_changes P E l has = (t, Normal (has || (0 <? length l)%nat)) /\
            file_writes t = writes_of l /\ commands t = [] /\
            attempts t = 0%nat).
  { induction l as [|c rest IH]; intros has.
    - exists []. simpl. now rewrite orb_false_r.
    - destruct (IH true) as (t2 & H2 & Hw2 & Hc2 & Ha2).
      cbn [apply_changes]. unfold apply_change, mkdirSync, writeFileSync.
      destruct (Hfs (path_dirname P (filename c))) as [-> _].
      destruct (Hfs (filename c)) as [_ ->].
      unfold attempts in *.
      destruct (truthy (path_dirname P (filename c)) &&
                negb (eqb (path_dirname P (filename c)) (js ".")));
        cbn [bind perform log ret app fst snd]; rewrite H2;
        eexists; (split; [rewrite orb_true_r; reflexivity|]); simpl;
        now rewrite Hw2, Hc2, Ha2. }
  apply (H changes false).
Qed.

(** X19.  A run in which the service answers at the first call, the parser returns
    edits, no file operation fails and the five publish commands succeed
    ends normally, whether the two check commands succeed or not.  It has
    run the two check commands and then the five publish commands, and has
    written, in this order, the edits, the progress note and the advanced
    queue document.  This holds of [main] in [build-pipeline.js] and of
    [main] in [part_000] for a parser that returns the same edits. *)
Theorem successful_run
  (parse : jsstring -> option (list FileEdit)) (P : Platform) (E : Env)
  (raw response : jsstring) (b : Backlog) (task : Task) (rest : list Task)
  (changes : list FileEdit) :
  backlog_file E = Some raw ->
  JSON_parse P raw = Some b ->
  pending b = task :: rest ->
  gen E 0 = GenOk response ->
  BuildPipeline.parseAIResponse response = changes ->
  parse response = Some changes ->
  changes <> [] ->
  fs_ok E ->
  publish_ok E task = true ->
  let done (r : M unit) :=
    snd r = Normal tt /\
    attempts (fst r) = 1%nat /\
    commands (fst r) = CMD_CHECK :: CMD_BUILD :: publish_commands task /\
    file_writes (fst r) =
      writes_of changes ++
      [(note_path (today E) task, note_text task response);
       (BACKLOG_JSON, JSON_stringify P (advance b))] in
  done (BuildPipeline.main P E) /\ done (Part000.main_with parse P E).
Proof.
  intros Hfile Hparse Hb Hgen Hsplit Hre Hne Hfs Hpub. cbn zeta.
  destruct (apply_changes_complete P E changes Hfs)
    as (t1 & H1 & Hw1 & Hc1 & Hattempts1).
  assert (Hlen : (0 <? length changes)%nat = true)
    by (destruct changes; [contradiction|reflexivity]).
  rewrite Hlen in H1.
  destruct (validate_normal P E) as [Hv _].
  assert (Hvc : commands (fst (validate E)) = [CMD_CHECK; CMD_BUILD] /\
                file_writes (fst (validate E)) = [] /\
                attempts (fst (validate E)) = 0%nat).
  { unfold validate, execSync, log, perform.
    destruct (exec_err E CMD_CHECK), (exec_err E CMD_BUILD); simpl; auto. }
  destruct Hvc as (Hvc & Hvw & Hva).
  destruct (validate E) as [tv cv] eqn:Hval. cbn [fst snd] in *. subst cv.
  assert (Hp : publish E task =
               (map ExecSync (publish_commands task), Normal tt)).
  { unfold publish_ok in Hpub. unfold publish, execSync, publish_commands.
    destruct (exec_err E CMD_USER_NAME); [discriminate|].
    destruct (exec_err E CMD_USER_EMAIL); [discriminate|].
    destruct (exec_err E CMD_ADD); [discriminate|].
    destruct (exec_err E (cmd_commit task)); [discriminate|].
    destruct (exec_err E CMD_PUSH); [discriminate|reflexivity]. }
  assert (Htail :
    apply_and_publish P E b task response changes =
      (t1 ++ [Mkdir (js "docs/progress");
              WriteFile (note_path (today E) task) (note_text task response)]
          ++ tv ++ map ExecSync (publish_commands task)
          ++ [WriteFile BACKLOG_JSON (JSON_stringify P (advance b));
              ConsoleLog (LComplete task)],
       Normal tt)).
  { unfold apply_and_publish. rewrite H1. cbn [bind].
    unfold write_note, persist_advance, mkdirSync, writeFileSync.
    destruct (Hfs (js "docs/progress")) as [-> _].
    destruct (Hfs (note_path (today E) task)) as [_ ->].
    destruct (Hfs BACKLOG_JSON) as [_ ->].
    rewrite Hp, Hval. cbn [bind perform log app fst snd]. reflexivity. }
  assert (Hdone : forall pre,
    attempts pre = 1%nat -> commands pre = [] -> file_writes pre = [] ->
    let r := (pre ++ fst (apply_and_publish P E b task response changes),
              snd (apply_and_publish P E b task response changes)) in
    snd r = Normal tt /\
    attempts (fst r) = 1%nat /\
    commands (fst r) = CMD_CHECK :: CMD_BUILD :: publish_commands task /\
    file_writes (fst r) =
      writes_of changes ++
      [(note_path (today E) task, note_text task response);
       (BACKLOG_JSON, JSON_stringify P (advance b))]).
  { intros pre Hpa Hpc Hpw. rewrite Htail. cbn [fst snd].
    unfold attempts in *.
    repeat rewrite ?commands_app, ?file_writes_app, ?filter_app, ?length_app.
    rewrite Hpa, Hpc, Hpw, Hc1, Hw1, Hvc, Hvw, Hattempts1, Hva.
    conjuncts; reflexivity. }
  split.
  - unfold BuildPipeline.main.
    rewrite (load_backlog_value P E b raw Hfile Hparse).
    cbn [bind]. rewrite Hb.
    unfold build_prompt, readdirSync, generateContent, log, perform.
    rewrite Hgen. cbn [bind ret app]. rewrite Hsplit.
    destruct (apply_and_publish P E b task response changes) as [t c] eqn:Ha.
    specialize (Hdone [ReadFile BACKLOG_JSON; ConsoleLog (LBuilding task);
                       ReadDir (js ".");
                       GenerateContent
                         (mkPrompt task
                            (lookup_phase (phase task) (phases b))
                            (filter (fun f => negb (startsWith (js ".") f))
                               (listing E)));
                       ConsoleLog (LPreview (slice0 300 response))]
                 eq_refl eq_refl eq_refl).
    cbn [fst snd] in Hdone. destruct Hdone as (Hc & Hrest). subst c.
    cbn [try_catch fst snd app] in *. exact (conj eq_refl Hrest).
  - unfold Part000.main_with.
    rewrite (load_backlog_value P E b raw Hfile Hparse).
    cbn [bind]. rewrite Hb.
    unfold build_prompt, readdirSync, log, perform.
    cbn [bind ret app].
    unfold Part000.callGeminiWithRetry, Part000.DEFAULT_RETRIES.
    rewrite (retry_loop_returns E _ 3 2 0 binary64_60000 response Hgen).
    cbn [bind app]. rewrite Hre.
    destruct changes as [|c0 l0]; [contradiction|].
    destruct (apply_and_publish P E b task response (c0 :: l0))
      as [t c] eqn:Ha.
    specialize (Hdone [ReadFile BACKLOG_JSON; ConsoleLog (LBuilding task);
                       ReadDir (js ".");
                       GenerateContent
                         (mkPrompt task
                            (lookup_phase (phase task) (phases b))
                            (filter (fun f => negb (startsWith (js ".") f))
                               (listing E)));
                       ConsoleLog (LPreview (slice0 300 response))]
                 eq_refl eq_refl eq_refl).
    cbn [fst snd] in Hdone. destruct Hdone as (Hc & Hrest). subst c.
    cbn [try_catch fst snd app] in *. exact (conj eq_refl Hrest).
Qed.

Lemma successful_run_witness :
  let P := Sample.platform in
  let E := Sample.answering Sample.one_file_response [CMD_CHECK] in
  let changes := [mkEdit (js "a.txt") (js "hello")] in
  let done (r : M unit) :=
    snd r = Normal tt /\
    attempts (fst r) = 1%nat /\
    commands (fst r) = CMD_CHECK :: CMD_BUILD :: publish_commands Sample.T1 /\
    file_writes (fst r) =
      writes_of changes ++
      [(note_path (today E) Sample.T1,
        note_text Sample.T1 Sample.one_file_response);
       (BACKLOG_JSON, JSON_stringify P (advance Sample.backlog))] in
  done (BuildPipeline.main P E) /\
  done (Part000.main_with (fun _ => Some changes) P E).
Proof.
  apply (successful_run (fun _ => Some [mkEdit (js "a.txt") (js "hello")])
           Sample.platform
           (Sample.answering Sample.one_file_response [CMD_CHECK])
           Sample.document Sample.one_file_response Sample.backlog
           Sample.T1 [Sample.T2] [mkEdit (js "a.txt") (js "hello")]).
  - reflexivity.
  - vm_compute. reflexivity.
  - reflexivity.
  - reflexivity.
  - vm_compute. reflexivity.
  - reflexivity.
  - discriminate.
  - intros path. split; reflexivity.
  - vm_compute. reflexivity.
Defined.

(** X20.  [build-pipeline.js] calls the service once and does not retry: when that
    call fails, be it with a rate-limit error, the run prints the error and
    exits with status 1, having written no file and run no command. *)
Theorem build_pipeline_does_not_retry
  (P : Platform) (E : Env) (raw e : jsstring) (b : Backlog)
  (task : Task) (rest : list Task) :
  backlog_file E = Some raw ->
  JSON_parse P raw = Some b ->
  pending b = task :: rest ->
  gen E 0 = GenErr e ->
  let r := BuildPipeline.main P E in
  snd r = Exit 1%Z /\
  attempts (fst r) = 1%nat /\
  delays (fst r) = [] /\
  last (fst r) (ConsoleLog LAllDone) = ConsoleError e /\
  file_writes (fst r) = [] /\ directories (fst r) = [] /\
  commands (fst r) = [].
Proof.
  intros Hfile Hparse Hb Hgen. cbn zeta. unfold BuildPipeline.main.
  rewrite (load_backlog_value P E b raw Hfile Hparse).
  cbn [bind]. rewrite Hb.
  unfold build_prompt, readdirSync, generateContent, log, perform.
  rewrite Hgen. cbn. conjuncts; reflexivity.
Qed.

Lemma build_pipeline_does_not_retry_witness :
  let r := BuildPipeline.main Sample.platform busy_always in
  snd r = Exit 1%Z /\
  attempts (fst r) = 1%nat /\
  delays (fst r) = [] /\
  last (fst r) (ConsoleLog LAllDone) =
    ConsoleError (js "[429 Too Many Requests]") /\
  file_writes (fst r) = [] /\ directories (fst r) = [] /\
  commands (fst r) = [].
Proof.
  apply (build_pipeline_does_not_retry Sample.platform busy_always
           Sample.document (js "[429 Too Many Requests]") Sample.backlog
           Sample.T1 [Sample.T2]).
  - reflexivity.
  - vm_compute. reflexivity.
  - reflexivity.
  - reflexivity.
Defined.

(** X21.  [part_000] as it is applies nothing: because its parser returns no list
    but the empty one, no run writes a file, creates a directory or runs a
    command, whatever the service answers. *)
Theorem part000_applies_nothing (fuel : nat) (P : Platform) (E : Env) :
  let r := Part000.main fuel P E in
  file_writes (fst r) = [] /\ directories (fst r) = [] /\
  commands (fst r) = [].
Proof.
  cbn zeta.
  destruct (harmless_trace _ (part000_main_harmless P E fuel))
    as (Hw & Hc & Hd).
  auto.
Qed.

(** X22.  In [part_000], when the service returns a text that holds a delimiter
    line, [main] does not end: it is still inside [parseAIResponse] after
    any number [fuel] of loop iterations. *)
Theorem part000_hangs_on_delimiter (fuel : nat)
  (P : Platform) (E : Env) (raw response : jsstring) (b : Backlog)
  (task : Task) (rest : list Task) (t : list action) :
  backlog_file E = Some raw ->
  JSON_parse P raw = Some b ->
  pending b = task :: rest ->
  Part000.callGeminiWithRetry E
    (mkPrompt task (lookup_phase (phase task) (phases b))
       (filter (fun f => negb (startsWith (js ".") f)) (listing E)))
    Part000.DEFAULT_RETRIES = (t, Normal (Some response)) ->
  finds_from response 0 ->
  Part000.main fuel P E =
    (ReadFile BACKLOG_JSON :: ConsoleLog (LBuilding task)
       :: ReadDir (js ".")
       :: t ++ [ConsoleLog (LPreview (slice0 300 response))],
     Diverges).
Proof.
  intros Hfile Hparse Hb Hgen Hfinds.
  unfold Part000.main, Part000.main_with.
  rewrite (load_backlog_value P E b raw Hfile Hparse).
  cbn [bind]. rewrite Hb. unfold build_prompt, readdirSync, log, perform.
  cbn [bind ret app]. rewrite Hgen. cbn [bind].
  rewrite (parseAIResponse_no_return response fuel Hfinds).
  reflexivity.
Qed.

Lemma part000_hangs_on_delimiter_witness :
  Part000.main 1000 Sample.platform (busy_once sample_response) =
    (ReadFile BACKLOG_JSON :: ConsoleLog (LBuilding Sample.T1)
       :: ReadDir (js ".")
       :: fst (Part000.callGeminiWithRetry (busy_once sample_response)
                 (mkPrompt Sample.T1 (Some (js "Backend"))
                    [js "backlog.json"]) 3)
       ++ [ConsoleLog (LPreview (slice0 300 sample_response))],
     Diverges).
Proof.
  apply (part000_hangs_on_delimiter 1000 Sample.platform
           (busy_once sample_response) Sample.document sample_response
           Sample.backlog Sample.T1 [Sample.T2]).
  - reflexivity.
  - vm_compute. reflexivity.
  - reflexivity.
  - vm_compute. reflexivity.
  - exists (Regex.mkMatch 0 (js "a.txt") 13). vm_compute. reflexivity.
Defined.

Lemma iter_advance k : forall l c ph,
  (k <= length l)%nat ->
  Nat.iter k advance (mkBacklog l c ph) =
    mkBacklog (skipn k l) (c ++ firstn k l) ph.
Proof.
  induction k as [|k IH]; intros l c ph Hk.
  - simpl. now rewrite app_nil_r.
  - rewrite Nat.iter_succ_r.
    destruct l as [|t l]; [simpl in Hk; lia|].
    unfold advance at 2. cbn [pending completed phases].
    rewrite IH by (simpl in Hk; lia).
    cbn [skipn firstn]. now rewrite <- app_assoc.
Qed.

(** X23.  Advancing the queue [k] times, for [k] at most the number of pending
    tasks, moves the first [k] pending tasks to the end of [completed] in
    their order and leaves the others pending in their order; after as many
    advances as there are pending tasks, [pending] is empty. *)
Theorem advance_is_fifo (b : Backlog) (k : nat) :
  (k <= length (pending b))%nat ->
  Nat.iter k advance b =
    mkBacklog (skipn k (pending b)) (completed b ++ firstn k (pending b))
              (phases b) /\
  pending (Nat.iter (length (pending b)) advance b) = [].
Proof.
  intros Hk. destruct b as [l c ph]. cbn [pending completed phases] in *.
  split; [now apply iter_advance|].
  rewrite iter_advance by lia. cbn [pending]. apply skipn_all.
Qed.

Lemma advance_is_fifo_witness :
  Nat.iter 2 advance Sample.backlog =
    mkBacklog (skipn 2 (pending Sample.backlog))
              (completed Sample.backlog ++ firstn 2 (pending Sample.backlog))
              (phases Sample.backlog) /\
  pending (Nat.iter (length (pending Sample.backlog)) advance Sample.backlog)
    = [].
Proof.
  apply (advance_is_fifo Sample.backlog 2). simpl. lia.
Defined.

Lemma publish_failure E task :
  publish_ok E task = false ->
  exists t e done cmd,
    publish E task = (t, Thrown e) /\
    file_writes t = [] /\ attempts t = 0%nat /\
    commands t = done ++ [cmd] /\
    initial_segment (done ++ [cmd]) (publish_commands task) /\
    Forall (fun c => exec_err E c = None) done /\
    exec_err E cmd = Some e.
Proof.
  unfold publish_ok, publish, execSync, perform, publish_commands.
  destruct (exec_err E CMD_USER_NAME) as [e|] eqn:H1.
  { intros _. exists [ExecSync CMD_USER_NAME], e, [], CMD_USER_NAME.
    simpl. conjuncts; auto. eexists; reflexivity. }
  destruct (exec_err E CMD_USER_EMAIL) as [e|] eqn:H2.
  { intros _.
    exists [ExecSync CMD_USER_NAME; ExecSync CMD_USER_EMAIL], e,
           [CMD_USER_NAME], CMD_USER_EMAIL.
    simpl. conjuncts; auto. eexists; reflexivity. }
  destruct (exec_err E CMD_ADD) as [e|] eqn:H3.
  { intros _.
    exists [ExecSync CMD_USER_NAME; ExecSync CMD_USER_EMAIL; ExecSync CMD_ADD],
           e, [CMD_USER_NAME; CMD_USER_EMAIL], CMD_ADD.
    simpl. conjuncts; auto. eexists; reflexivity. }
  destruct (exec_err E (cmd_commit task)) as [e|] eqn:H4.
  { intros _.
    exists [ExecSync CMD_USER_NAME; ExecSync CMD_USER_EMAIL; ExecSync CMD_ADD;
            ExecSync (cmd_commit task)],
           e, [CMD_USER_NAME; CMD_USER_EMAIL; CMD_ADD], (cmd_commit task).
    simpl. conjuncts; auto. eexists; reflexivity. }
  destruct (exec_err E CMD_PUSH) as [e|] eqn:H5; [|discriminate].
  intros _.
  exists [ExecSync CMD_USER_NAME; ExecSync CMD_USER_EMAIL; ExecSync CMD_ADD;
          ExecSync (cmd_commit task); ExecSync CMD_PUSH],
         e, [CMD_USER_NAME; CMD_USER_EMAIL; CMD_ADD; cmd_commit task],
         CMD_PUSH.
  simpl. conjuncts; auto. now exists [].
Qed.

(** X24.  There is no rollback: in a run that has applied its edits and written
    the progress note, a failure of the publish step ends the run with
    status 1.  The edits and the note stay written and no other file is
    written: the call that persists the advanced queue document is not
    made.  The last command run is the one that failed, the commands of the
    publish step before it have succeeded, and the error printed last is the
    error of that command.  This holds of [main] in [build-pipeline.js] and
    of [main] in [part_000] for a parser that returns the same edits. *)
Theorem failed_publish_leaves_files
  (parse : jsstring -> option (list FileEdit)) (P : Platform) (E : Env)
  (raw response : jsstring) (b : Backlog) (task : Task) (rest : list Task)
  (changes : list FileEdit) :
  backlog_file E = Some raw ->
  JSON_parse P raw = Some b ->
  pending b = task :: rest ->
  gen E 0 = GenOk response ->
  BuildPipeline.parseAIResponse response = changes ->
  parse response = Some changes ->
  changes <> [] ->
  fs_ok E ->
  publish_ok E task = false ->
  let failed (r : M unit) :=
    snd r = Exit 1%Z /\
    (exists done cmd msg,
       commands (fst r) = CMD_CHECK :: CMD_BUILD :: done ++ [cmd] /\
       initial_segment (done ++ [cmd]) (publish_commands task) /\
       Forall (fun c => exec_err E c = None) done /\
       exec_err E cmd = Some msg /\
       last (fst r) (ConsoleLog LAllDone) = ConsoleError msg) /\
    file_writes (fst r) =
      writes_of changes ++
      [(note_path (today E) task, note_text task response)] in
  failed (BuildPipeline.main P E) /\ failed (Part000.main_with parse P E).
Proof.
  intros Hfile Hparse Hb Hgen Hsplit Hre Hne Hfs Hpub. cbn zeta.
  destruct (apply_changes_complete P E changes Hfs)
    as (t1 & H1 & Hw1 & Hc1 & _).
  assert (Hlen : (0 <? length changes)%nat = true)
    by (destruct changes; [contradiction|reflexivity]).
  rewrite Hlen in H1.
  destruct (validate_normal P E) as [Hv _].
  assert (Hvc : commands (fst (validate E)) = [CMD_CHECK; CMD_BUILD] /\
                file_writes (fst (validate E)) = []).
  { unfold validate, execSync, log, perform.
    destruct (exec_err E CMD_CHECK), (exec_err E CMD_BUILD); simpl; auto. }
  destruct Hvc as (Hvc & Hvw).
  destruct (validate E) as [tv cv] eqn:Hval. cbn [fst snd] in *. subst cv.
  destruct (publish_failure E task Hpub)
    as (tp & e & done & cmd & Hp & Hpw & _ & Hpc & Hseg & Hdone & Herr).
  assert (Htail :
    apply_and_publish P E b task response changes =
      (t1 ++ [Mkdir (js "docs/progress");
              WriteFile (note_path (today E) task) (note_text task response)]
          ++ tv ++ tp,
       Thrown e)).
  { unfold apply_and_publish. rewrite H1. cbn [bind].
    unfold write_note, mkdirSync, writeFileSync.
    destruct (Hfs (js "docs/progress")) as [-> _].
    destruct (Hfs (note_path (today E) task)) as [_ ->].
    rewrite Hp, Hval. cbn [bind perform log app fst snd]. reflexivity. }
  assert (Hfailed : forall pre,
    commands pre = [] -> file_writes pre = [] ->
    let r := try_catch
               (pre ++ fst (apply_and_publish P E b task response changes),
                snd (apply_and_publish P E b task response changes))
               on_error in
    snd r = Exit 1%Z /\
    (exists done cmd msg,
       commands (fst r) = CMD_CHECK :: CMD_BUILD :: done ++ [cmd] /\
       initial_segment (done ++ [cmd]) (publish_commands task) /\
       Forall (fun c => exec_err E c = None) done /\
       exec_err E cmd = Some msg /\
       last (fst r) (ConsoleLog LAllDone) = ConsoleError msg) /\
    file_writes (fst r) =
      writes_of changes ++
      [(note_path (today E) task, note_text task response)]).
  { intros pre Hpc0 Hpw0. rewrite Htail. cbn [fst snd try_catch on_error bind
      perform exit app].
    conjuncts.
    - reflexivity.
    - exists done, cmd, e. conjuncts; auto; [|apply last_last].
      change (Mkdir (js "docs/progress")
                :: WriteFile (note_path (today E) task)
                     (note_text task response) :: tv ++ tp)
        with ([Mkdir (js "docs/progress");
               WriteFile (note_path (today E) task)
                 (note_text task response)] ++ tv ++ tp).
      repeat rewrite commands_app. rewrite Hpc0, Hc1, Hvc, Hpc. simpl.
      now rewrite app_nil_r.
    - change (Mkdir (js "docs/progress")
                :: WriteFile (note_path (today E) task)
                     (note_text task response) :: tv ++ tp)
        with ([Mkdir (js "docs/progress");
               WriteFile (note_path (today E) task)
                 (note_text task response)] ++ tv ++ tp).
      repeat rewrite file_writes_app. rewrite Hpw0, Hw1, Hvw, Hpw. simpl.
      now rewrite app_nil_r. }
  split.
  - unfold BuildPipeline.main.
    rewrite (load_backlog_value P E b raw Hfile Hparse).
    cbn [bind]. rewrite Hb.
    unfold build_prompt, readdirSync, generateContent, log, perform.
    rewrite Hgen. cbn [bind ret app]. rewrite Hsplit.
    destruct (apply_and_publish P E b task response changes) as [t c] eqn:Ha.
    apply (Hfailed [ReadFile BACKLOG_JSON; ConsoleLog (LBuilding task);
                    ReadDir (js ".");
                    GenerateContent
                      (mkPrompt task
                         (lookup_phase (phase task) (phases b))
                         (filter (fun f => negb (startsWith (js ".") f))
                            (listing E)));
                    ConsoleLog (LPreview (slice0 300 response))]
             eq_refl eq_refl).
  - unfold Part000.main_with.
    rewrite (load_backlog_value P E b raw Hfile Hparse).
    cbn [bind]. rewrite Hb.
    unfold build_prompt, readdirSync, log, perform.
    cbn [bind ret app].
    unfold Part000.callGeminiWithRetry, Part000.DEFAULT_RETRIES.
    rewrite (retry_loop_returns E _ 3 2 0 binary64_60000 response Hgen).
    cbn [bind app]. rewrite Hre.
    destruct changes as [|c0 l0]; [contradiction|].
    destruct (apply_and_publish P E b task response (c0 :: l0))
      as [t c] eqn:Ha.
    apply (Hfailed [ReadFile BACKLOG_JSON; ConsoleLog (LBuilding task);
                    ReadDir (js ".");
                    GenerateContent
                      (mkPrompt task
                         (lookup_phase (phase task) (phases b))
                         (filter (fun f => negb (startsWith (js ".") f))
                            (listing E)));
                    ConsoleLog (LPreview (slice0 300 response))]
             eq_refl eq_refl).
Qed.

Lemma failed_publish_leaves_files_witness :
  let P := Sample.platform in
  let E := Sample.answering Sample.one_file_response [cmd_commit Sample.T1] in
  let changes := [mkEdit (js "a.txt") (js "hello")] in
  let failed (r : M unit) :=
    snd r = Exit 1%Z /\
    (exists done cmd msg,
       commands (fst r) = CMD_CHECK :: CMD_BUILD :: done ++ [cmd] /\
       initial_segment (done ++ [cmd]) (publish_commands Sample.T1) /\
       Forall (fun c => exec_err E c = None) done /\
       exec_err E cmd = Some msg /\
       last (fst r) (ConsoleLog LAllDone) = ConsoleError msg) /\
    file_writes (fst r) =
      writes_of changes ++
      [(note_path (today E) Sample.T1,
        note_text Sample.T1 Sample.one_file_response)] in
  failed (BuildPipeline.main P E) /\
  failed (Part000.main_with (fun _ => Some changes) P E).
Proof.
  apply (failed_publish_leaves_files
           (fun _ => Some [mkEdit (js "a.txt") (js "hello")])
           Sample.platform
           (Sample.answering Sample.one_file_response [cmd_commit Sample.T1])
           Sample.document Sample.one_file_response Sample.backlog
           Sample.T1 [Sample.T2] [mkEdit (js "a.txt") (js "hello")]).
  - reflexivity.
  - vm_compute. reflexivity.
  - reflexivity.
  - reflexivity.
  - vm_compute. reflexivity.
  - reflexivity.
  - discriminate.
  - intros path. split; reflexivity.
  - vm_compute. reflexivity.
Defined.
